(** * ollama-vision: the [POST /extract] handler of [src/mini.js]

    A shallow embedding of the request handler that renders a PDF to page
    images, sends them in batches to a vision model, parses and validates
    every answer and merges the answers into one record.

    - JavaScript strings are sequences of UTF-16 code units ([list N]).
    - JavaScript values that [JSON.parse] can build are the type [value];
      object values are finite maps from property names to values.
    - Exceptions are an error monad [result]; the [try]/[catch] of the
      handler turns a thrown error into the 500 response.
    - The vision model and the page converter are functions given to the
      handler: whatever they answer, the handler's behaviour is fixed. *)

From Stdlib Require Import ZArith NArith Ascii String List Lia.
From stdpp Require Import gmap strings list fin_maps.

Local Open Scope N_scope.

(** ** Strings *)

(** A JavaScript string: its UTF-16 code units. *)
Abbreviation jsstring := (list N).

(** A literal of the source, written in ASCII. *)
Definition str (s : string) : jsstring :=
  (λ a, N_of_ascii a) <$> list_ascii_of_string s.

(** Literals that contain double quotes are written with an apostrophe in
    place of every double quote: [lit "{'a': 1}"] is the text [{"a": 1}]. *)
Definition lit (s : string) : jsstring :=
  (λ c, if c =? 39 then 34 else c) <$> str s.

(** [s.indexOf(c)] for a one-character needle; [-1] when absent. *)
Fixpoint indexOf_from (c : N) (s : jsstring) (i : Z) : Z :=
  match s with
  | [] => (-1)%Z
  | x :: r => if x =? c then i else indexOf_from c r (i + 1)%Z
  end.

Definition indexOf (c : N) (s : jsstring) : Z := indexOf_from c s 0.

(** [s.lastIndexOf(c)]: the scan keeps the latest position seen. *)
Fixpoint lastIndexOf_from (c : N) (s : jsstring) (i last : Z) : Z :=
  match s with
  | [] => last
  | x :: r => lastIndexOf_from c r (i + 1)%Z (if x =? c then i else last)
  end.

Definition lastIndexOf (c : N) (s : jsstring) : Z :=
  lastIndexOf_from c s 0 (-1).

(** [s.slice(from, to)] on strings and arrays: negative indices count from
    the end, both are clamped to the length, an empty range gives the empty
    sequence. *)
Definition clamp_index (len k : Z) : Z :=
  if (k <? 0)%Z then Z.max (len + k) 0 else Z.min k len.

Definition slice {A} (s : list A) (from to : Z) : list A :=
  let len := Z.of_nat (length s) in
  let a := clamp_index len from in
  let b := clamp_index len to in
  take (Z.to_nat (b - a)) (drop (Z.to_nat a) s).

(** ** Values *)

(** The values the handler sees.  A number [VNum m e] stands for the decimal
    [m * 10^e] that its literal denotes (rounding to a double is not
    modelled; the handler never computes with a number read from the
    model). *)
#[warnings="-register-all"]
Inductive value :=
| VUndefined
| VNull
| VBool (b : bool)
| VNum (m e : Z)
| VStr (s : jsstring)
| VArr (items : list value)
| VObj (props : gmap jsstring value).

Abbreviation obj := (gmap jsstring value).

(** [o[key]] on an object: [undefined] for a missing property. *)
Definition get (o : obj) (key : jsstring) : value :=
  default VUndefined (o !! key).

(** [v == null]: true of [null] and [undefined] only. *)
Definition loose_null (v : value) : bool :=
  match v with
  | VUndefined | VNull => true
  | _ => false
  end.

(** ** Errors *)

Inductive error :=
| Error (message : jsstring)   (* [new Error(message)], also a failed model call *)
| SyntaxError                  (* thrown by [JSON.parse] *)
| ZodError.                    (* thrown by [schema.parse] *)

Inductive result (A : Type) :=
| Ok (a : A)
| Throw (e : error).
Arguments Ok {A} a.
Arguments Throw {A} e.

#[global] Instance result_ret : MRet result := λ A a, Ok a.
#[global] Instance result_bind : MBind result := λ A B f m,
  match m with
  | Ok a => f a
  | Throw e => Throw e
  end.

(** ** [JSON.parse] *)

Module JSON.

Definition is_ws (c : N) : bool :=
  (c =? 9) || (c =? 10) || (c =? 13) || (c =? 32).

Fixpoint skip_ws (s : jsstring) : jsstring :=
  match s with
  | c :: r => if is_ws c then skip_ws r else s
  | [] => []
  end.

Definition is_digit (c : N) : bool := (48 <=? c) && (c <=? 57).

Fixpoint take_digits (s : jsstring) : list N * jsstring :=
  match s with
  | c :: r =>
      if is_digit c then let '(ds, r') := take_digits r in (c :: ds, r')
      else ([], s)
  | [] => ([], [])
  end.

Definition digits_value (ds : list N) : Z :=
  fold_left (λ acc d, (10 * acc + Z.of_N (d - 48))%Z) ds 0%Z.

Definition hex_digit (c : N) : option N :=
  if is_digit c then Some (c - 48)
  else if (97 <=? c) && (c <=? 102) then Some (c - 87)
  else if (65 <=? c) && (c <=? 70) then Some (c - 55)
  else None.

(** The character an escape [\c] other than [\u] denotes. *)
Definition escape (c : N) : option N :=
  if c =? 34 then Some 34
  else if c =? 92 then Some 92
  else if c =? 47 then Some 47
  else if c =? 98 then Some 8
  else if c =? 102 then Some 12
  else if c =? 110 then Some 10
  else if c =? 114 then Some 13
  else if c =? 116 then Some 9
  else None.

(** The characters of a string literal after its opening quote, up to the
    closing quote, and the text that follows. *)
Fixpoint string_body (s : jsstring) : option (jsstring * jsstring) :=
  match s with
  | [] => None
  | c :: r =>
      if c =? 34 then Some ([], r)
      else if c =? 92 then
        match r with
        | [] => None
        | e :: r1 =>
            if e =? 117 then
              match r1 with
              | h1 :: h2 :: h3 :: h4 :: r2 =>
                  match hex_digit h1, hex_digit h2, hex_digit h3, hex_digit h4 with
                  | Some a, Some b, Some c', Some d =>
                      match string_body r2 with
                      | Some (body, rest) =>
                          Some (((a * 16 + b) * 16 + c') * 16 + d :: body, rest)
                      | None => None
                      end
                  | _, _, _, _ => None
                  end
              | _ => None
              end
            else
              match escape e with
              | Some x =>
                  match string_body r1 with
                  | Some (body, rest) => Some (x :: body, rest)
                  | None => None
                  end
              | None => None
              end
        end
      else if c <? 32 then None
      else
        match string_body r with
        | Some (body, rest) => Some (c :: body, rest)
        | None => None
        end
  end.

(** A number literal: [-]? int frac? exp?, with no leading zero in int. *)
Definition number (s : jsstring) : option (value * jsstring) :=
  let '(neg, s1) :=
    match s with
    | c :: r => if c =? 45 then (true, r) else (false, s)
    | [] => (false, s)
    end in
  let int_part :=
    match s1 with
    | c :: r =>
        if c =? 48 then Some ([48], r)
        else if is_digit c then Some (take_digits s1)
        else None
    | [] => None
    end in
  match int_part with
  | None => None
  | Some (ints, s2) =>
      let frac_part :=
        match s2 with
        | c :: r =>
            if c =? 46 then
              match take_digits r with
              | ([], _) => None
              | (ds, r') => Some (ds, r')
              end
            else Some ([], s2)
        | [] => Some ([], s2)
        end in
      match frac_part with
      | None => None
      | Some (fracs, s3) =>
          let exp_part :=
            match s3 with
            | c :: r =>
                if (c =? 101) || (c =? 69) then
                  let '(eneg, r1) :=
                    match r with
                    | sg :: r' =>
                        if sg =? 45 then (true, r')
                        else if sg =? 43 then (false, r')
                        else (false, r)
                    | [] => (false, r)
                    end in
                  match take_digits r1 with
                  | ([], _) => None
                  | (ds, r2) =>
                      Some (if eneg then (- digits_value ds)%Z else digits_value ds, r2)
                  end
                else Some (0%Z, s3)
            | [] => Some (0%Z, s3)
            end in
          match exp_part with
          | None => None
          | Some (e, s4) =>
              let m := digits_value (ints ++ fracs) in
              Some (VNum (if neg then (- m)%Z else m)
                         (e - Z.of_nat (length fracs)), s4)
          end
      end
  end.

(** [strip_prefix p s]: the rest of [s] after the keyword [p]. *)
Fixpoint strip_prefix (p s : jsstring) : option jsstring :=
  match p, s with
  | [], _ => Some s
  | a :: p', b :: s' => if a =? b then strip_prefix p' s' else None
  | _ :: _, [] => None
  end.

Definition keyword (s : jsstring) : option (value * jsstring) :=
  match strip_prefix (str "true") s with
  | Some r => Some (VBool true, r)
  | None =>
      match strip_prefix (str "false") s with
      | Some r => Some (VBool false, r)
      | None =>
          match strip_prefix (str "null") s with
          | Some r => Some (VNull, r)
          | None => None
          end
      end
  end.

(** Recursive descent over the grammar of ECMA-404.  Every call spends one
    unit of [fuel]; a value of [n] characters needs at most [2 * n + 1].
    A repeated key of an object keeps its last value. *)
Fixpoint parse_value (fuel : nat) (s : jsstring) : option (value * jsstring) :=
  match fuel with
  | O => None
  | S fuel' =>
      match skip_ws s with
      | [] => None
      | c :: r =>
          if c =? 123 then
            match skip_ws r with
            | c' :: r' =>
                if c' =? 125 then Some (VObj ∅, r')
                else
                  match parse_members fuel' r ∅ with
                  | Some (o, rest) => Some (VObj o, rest)
                  | None => None
                  end
            | [] => None
            end
          else if c =? 91 then
            match skip_ws r with
            | c' :: r' =>
                if c' =? 93 then Some (VArr [], r')
                else
                  match parse_elements fuel' r [] with
                  | Some (l, rest) => Some (VArr l, rest)
                  | None => None
                  end
            | [] => None
            end
          else if c =? 34 then
            match string_body r with
            | Some (body, rest) => Some (VStr body, rest)
            | None => None
            end
          else if (c =? 45) || is_digit c then number (c :: r)
          else keyword (c :: r)
      end
  end
with parse_elements (fuel : nat) (s : jsstring) (acc : list value)
  : option (list value * jsstring) :=
  match fuel with
  | O => None
  | S fuel' =>
      match parse_value fuel' s with
      | Some (v, r) =>
          match skip_ws r with
          | c :: r' =>
              if c =? 44 then parse_elements fuel' r' (acc ++ [v])
              else if c =? 93 then Some (acc ++ [v], r')
              else None
          | [] => None
          end
      | None => None
      end
  end
with parse_members (fuel : nat) (s : jsstring) (acc : obj)
  : option (obj * jsstring) :=
  match fuel with
  | O => None
  | S fuel' =>
      match skip_ws s with
      | q :: r =>
          if q =? 34 then
            match string_body r with
            | Some (key, r1) =>
                match skip_ws r1 with
                | colon :: r2 =>
                    if colon =? 58 then
                      match parse_value fuel' r2 with
                      | Some (v, r3) =>
                          match skip_ws r3 with
                          | c :: r4 =>
                              if c =? 44 then parse_members fuel' r4 (<[key := v]> acc)
                              else if c =? 125 then Some (<[key := v]> acc, r4)
                              else None
                          | [] => None
                          end
                      | None => None
                      end
                    else None
                | [] => None
                end
            | None => None
            end
          else None
      | [] => None
      end
  end.

(** [JSON.parse(text)]: one value, surrounded by white space only.  [None]
    stands for the [SyntaxError] it throws. *)
Definition parse (text : jsstring) : option value :=
  match parse_value (S (2 * length text)) text with
  | Some (v, rest) =>
      match skip_ws rest with
      | [] => Some v
      | _ :: _ => None
      end
  | None => None
  end.

End JSON.

(** ** The schema validator (zod) *)

(** The schema combinators the source uses. *)
#[warnings="-register-all"]
Inductive schema :=
| z_string
| z_number
| z_optional (inner : schema)
| z_array (element : schema)
| z_object (shape : list (jsstring * schema)).

(** The properties an object schema keeps: each key of the shape, in turn,
    is checked against the property of that name.  A key that is missing
    from the input and checks to [undefined] is left out; nothing else of
    the input is copied. *)
Definition object_fields (check : schema → value → option value) (data : obj)
  : list (jsstring * schema) → option obj :=
  fix fields sh :=
    match sh with
    | [] => Some ∅
    | (key, field) :: sh' =>
        match check field (get data key), fields sh' with
        | Some out, Some rest =>
            Some (match out, data !! key with
                  | VUndefined, None => rest
                  | _, _ => <[key := out]> rest
                  end)
        | _, _ => None
        end
    end.

(** [schema.parse(v)], [None] standing for the [ZodError] it throws.
    - [z.string()] and [z.number()] accept exactly the values of that type
      (a number literal beyond the range of doubles, which [JSON.parse]
      reads as [Infinity], counts as a number here, as in zod 3; zod 4
      refuses it, and statements that depend on it say so);
    - [.optional()] accepts [undefined] and otherwise defers to the inner
      schema ([null] is not [undefined]);
    - [z.array(el)] accepts arrays whose items all pass [el];
    - [z.object(shape)] accepts objects (not arrays, not [null]) whose
      properties pass the shape, and builds a new object of the checked
      properties: properties whose names are not in the shape are dropped. *)
Fixpoint zparse (sc : schema) (v : value) : option value :=
  match sc with
  | z_string =>
      match v with
      | VStr _ => Some v
      | _ => None
      end
  | z_number =>
      match v with
      | VNum _ _ => Some v
      | _ => None
      end
  | z_optional inner =>
      match v with
      | VUndefined => Some VUndefined
      | _ => zparse inner v
      end
  | z_array element =>
      match v with
      | VArr items => VArr <$> mapM (zparse element) items
      | _ => None
      end
  | z_object shape =>
      match v with
      | VObj data => VObj <$> object_fields zparse data shape
      | _ => None
      end
  end.

(** [schema.partial()]: every key of the shape becomes optional. *)
Definition partial (sc : schema) : schema :=
  match sc with
  | z_object shape => z_object ((λ kf, (kf.1, z_optional kf.2)) <$> shape)
  | _ => sc
  end.

(** [ExtractedDataSchema], lines 31 to 54. *)
Definition LineItemSchema : schema :=
  z_object
    [ (str "description", z_optional z_string);
      (str "quantity", z_optional z_string);
      (str "unitPrice", z_optional z_string);
      (str "amount", z_optional z_string) ].

Definition MetaSchema : schema :=
  z_object [ (str "pagesProcessed", z_optional z_number) ].

Definition ExtractedDataSchema : schema :=
  z_object
    [ (str "documentType", z_optional z_string);
      (str "invoiceNumber", z_optional z_string);
      (str "date", z_optional z_string);
      (str "vendor", z_optional z_string);
      (str "buyer", z_optional z_string);
      (str "total", z_optional z_string);
      (str "currency", z_optional z_string);
      (str "lineItems", z_optional (z_array LineItemSchema));
      (str "meta", z_optional MetaSchema) ].

(** The handler reads [result] as an object: the static type zod gives to
    the output of an object schema. *)
Definition parse_object (sc : schema) (v : value) : result obj :=
  match zparse sc v with
  | Some (VObj o) => Ok o
  | _ => Throw ZodError
  end.

(** ** The merged record *)

(** A page image: the base64 text the converter returns. *)
Abbreviation base64 := (list N).

Record Meta := { pagesProcessed : Z }.

(** The object literal of lines 187 to 197 and its fields. *)
Record Merged := {
  documentType : value;
  invoiceNumber : value;
  date : value;
  vendor : value;
  buyer : value;
  total : value;
  currency : value;
  lineItems : list value;
  meta : Meta
}.

Definition initial_merged : Merged :=
  {| documentType := VNull; invoiceNumber := VNull; date := VNull;
     vendor := VNull; buyer := VNull; total := VNull; currency := VNull;
     lineItems := []; meta := {| pagesProcessed := 0 |} |}.

(** The keys the merge loop of line 223 runs over. *)
Inductive scalar_key :=
| KdocumentType | KinvoiceNumber | Kdate | Kvendor | Kbuyer | Ktotal | Kcurrency.

Definition scalar_keys : list scalar_key :=
  [KdocumentType; KinvoiceNumber; Kdate; Kvendor; Kbuyer; Ktotal; Kcurrency].

Definition key_name (key : scalar_key) : jsstring :=
  match key with
  | KdocumentType => str "documentType"
  | KinvoiceNumber => str "invoiceNumber"
  | Kdate => str "date"
  | Kvendor => str "vendor"
  | Kbuyer => str "buyer"
  | Ktotal => str "total"
  | Kcurrency => str "currency"
  end.

(** [merged[key]] *)
Definition merged_get (merged : Merged) (key : scalar_key) : value :=
  match key with
  | KdocumentType => documentType merged
  | KinvoiceNumber => invoiceNumber merged
  | Kdate => date merged
  | Kvendor => vendor merged
  | Kbuyer => buyer merged
  | Ktotal => total merged
  | Kcurrency => currency merged
  end.

(** [merged[key] = v] *)
Definition merged_set (merged : Merged) (key : scalar_key) (v : value) : Merged :=
  let 'Build_Merged dt inv d ven b t c li m := merged in
  match key with
  | KdocumentType => Build_Merged v inv d ven b t c li m
  | KinvoiceNumber => Build_Merged dt v d ven b t c li m
  | Kdate => Build_Merged dt inv v ven b t c li m
  | Kvendor => Build_Merged dt inv d v b t c li m
  | Kbuyer => Build_Merged dt inv d ven v t c li m
  | Ktotal => Build_Merged dt inv d ven b v c li m
  | Kcurrency => Build_Merged dt inv d ven b t v li m
  end.

Definition set_lineItems (merged : Merged) (items : list value) : Merged :=
  let 'Build_Merged dt inv d ven b t c _ m := merged in
  Build_Merged dt inv d ven b t c items m.

Definition set_meta (merged : Merged) (m : Meta) : Merged :=
  let 'Build_Merged dt inv d ven b t c li _ := merged in
  Build_Merged dt inv d ven b t c li m.

(** The record as the JavaScript object handed to the final validation. *)
Definition merged_value (merged : Merged) : value :=
  VObj (list_to_map
    [ (str "documentType", documentType merged);
      (str "invoiceNumber", invoiceNumber merged);
      (str "date", date merged);
      (str "vendor", vendor merged);
      (str "buyer", buyer merged);
      (str "total", total merged);
      (str "currency", currency merged);
      (str "lineItems", VArr (lineItems merged));
      (str "meta",
       VObj {[ str "pagesProcessed" := VNum (pagesProcessed (meta merged)) 0 ]}) ]).

(** Line 224, for one key. *)
Definition merge_scalar (result : obj) (merged : Merged) (key : scalar_key) : Merged :=
  if loose_null (merged_get merged key)
     && negb (loose_null (get result (key_name key)))
  then merged_set merged key (get result (key_name key))
  else merged.

(** Lines 223 to 229: what one validated [result] does to [merged]. *)
Definition merge_batch (merged : Merged) (result : obj) (batch : list base64) : Merged :=
  let merged := fold_left (merge_scalar result) scalar_keys merged in
  let merged :=
    match get result (str "lineItems") with
    | VArr items => set_lineItems merged (lineItems merged ++ items)
    | _ => merged
    end in
  set_meta merged
    {| pagesProcessed := pagesProcessed (meta merged) + Z.of_nat (length batch) |}.

(** ** The batch planner *)

Definition BATCH_SIZE : nat := 6.

(** Lines 178 to 181.  [fuel] bounds the iterations; [i] grows by
    [BATCH_SIZE] each time, so [length pages] iterations are enough
    ([batch_loop_fuel]). *)
Fixpoint batch_loop (fuel : nat) (pages : list base64) (i : nat)
    (batches : list (list base64)) : list (list base64) :=
  match fuel with
  | O => batches
  | S fuel' =>
      if (i <? length pages)%nat then
        batch_loop fuel' pages (i + BATCH_SIZE)
          (batches ++ [slice pages (Z.of_nat i) (Z.of_nat (i + BATCH_SIZE))])
      else batches
  end.

Definition make_batches (pages : list base64) : list (list base64) :=
  batch_loop (length pages) pages 0 [].

(** ** Model output *)

Definition JSON_parse (text : jsstring) : result value :=
  match JSON.parse text with
  | Some v => Ok v
  | None => Throw SyntaxError
  end.

(** [try { body } catch { handler }] *)
Definition try_catch {A} (body : result A) (handler : error → result A) : result A :=
  match body with
  | Ok a => Ok a
  | Throw e => handler e
  end.

(** Lines 206 to 218. *)
Definition parse_model_output (content : jsstring) : result value :=
  try_catch (JSON_parse content) (λ _,
    let start := indexOf 123 content in
    let end_ := lastIndexOf 125 content in
    if negb (start =? -1)%Z && negb (end_ =? -1)%Z && (end_ >? start)%Z
    then JSON_parse (slice content start (end_ + 1))
    else Throw (Error (str "Model did not return valid JSON."))).

(** ** The handler *)

Inductive response :=
| NoFile                               (* status 400, [{ error: 'No PDF uploaded...' }] *)
| Success (pages : nat) (data : value) (* [{ ok: true, pages, data }] *)
| Failure (err : error).               (* status 500, [{ ok: false, error }] *)

(** The [error] field of the 500 body, [err?.message || 'Extraction failed'].
    The text of a [SyntaxError] or a [ZodError] is chosen by the library
    that throws it and is never empty; it is left open here. *)
Definition failure_text (err : error) : option jsstring :=
  match err with
  | Error [] => Some (str "Extraction failed")
  | Error message => Some message
  | SyntaxError | ZodError => None
  end.

Definition status (r : response) : nat :=
  match r with
  | NoFile => 400
  | Success _ _ => 200
  | Failure _ => 500
  end.

Section Handler.

(** [pdfToPicFromPath(pdfPath, ...)(page, true)]: the [base64] field of the
    result ([None] when the result has none), or an exception. *)
Variable pdfToPicFromPath : jsstring → nat → result (option base64).

(** [callOllamaVision] for batch number [n] of [total] with its images: the
    trimmed text of the answer, or the exception of the failed call.  The
    prompt differs between calls in these two numbers only. *)
Variable callOllamaVision : nat → nat → list base64 → result jsstring.

(** Lines 120 to 130: pages 1, 2, ... until the converter throws, returns
    nothing, or 9999 pages were read; [n] counts the iterations left. *)
Fixpoint render_loop (pdfPath : jsstring) (n : nat) (page : nat)
    (base64Pages : list base64) : list base64 :=
  match n with
  | O => base64Pages
  | S n' =>
      match pdfToPicFromPath pdfPath page with
      | Ok (Some (c :: b)) => render_loop pdfPath n' (S page) (base64Pages ++ [c :: b])
      | Ok (Some []) | Ok None => base64Pages
      | Throw _ => base64Pages
      end
  end.

Definition pdfToBase64Pages (pdfPath : jsstring) : list base64 :=
  render_loop pdfPath (Z.to_nat 9999) 1 [].

(** Lines 199 to 230: the loop over [batches.entries()]. *)
Fixpoint process_batches (count idx : nat) (merged : Merged)
    (batches : list (list base64)) : result Merged :=
  match batches with
  | [] => Ok merged
  | batch :: rest =>
      content ← callOllamaVision (idx + 1) count batch;
      parsed ← parse_model_output content;
      result ← parse_object (partial ExtractedDataSchema) parsed;
      process_batches count (S idx) (merge_batch merged result batch) rest
  end.

(** Lines 171 to 239, the body of [try]. *)
Definition extract_body (pdfPath : jsstring) : result response :=
  let pages := pdfToBase64Pages pdfPath in
  if (length pages =? 0)%nat
  then Throw (Error (str "Could not render any pages from PDF."))
  else
    let batches := make_batches pages in
    merged ← process_batches (length batches) 0 initial_merged batches;
    final ← parse_object ExtractedDataSchema (merged_value merged);
    Ok (Success (length pages) (VObj final)).

(** Lines 167 to 254; [file] is the path of the upload, if there is one. *)
Definition extract (file : option jsstring) : response :=
  match file with
  | None => NoFile
  | Some pdfPath =>
      match extract_body pdfPath with
      | Ok r => r
      | Throw err => Failure err
      end
  end.

End Handler.

(** * Notions used in the statements *)

(** The number of groups: [(n + 5) / 6] is the ceiling of [n / 6]. *)
Definition ceil_div (n b : nat) : nat := ((n + (b - 1)) / b)%nat.

#[global] Instance scalar_key_eq_dec : EqDecision scalar_key.
Proof. solve_decision. Defined.

(** The rule of line 224 on two values: the current one and the candidate's. *)
Definition first_wins (current candidate : value) : value :=
  if loose_null current && negb (loose_null candidate) then candidate else current.

(** The line items a candidate contributes: those of an array, else none. *)
Definition candidate_items (result : obj) : list value :=
  match get result (str "lineItems") with
  | VArr items => items
  | _ => []
  end.


(** Lines 200 to 220 for one batch: the model's answer, parsed and
    validated.  This is the candidate record of the batch. *)
Definition fetch_candidate (callOllamaVision : nat → nat → list base64 → result jsstring)
    (count idx : nat) (batch : list base64) : result obj :=
  content ← callOllamaVision (idx + 1)%nat count batch;
  parsed ← parse_model_output content;
  parse_object (partial ExtractedDataSchema) parsed.

(** The candidate records of all batches, in batch order; the first
    failure, if one of them fails. *)
Fixpoint candidates (callOllamaVision : nat → nat → list base64 → result jsstring)
    (count idx : nat) (batches : list (list base64)) : result (list obj) :=
  match batches with
  | [] => Ok []
  | batch :: rest =>
      c ← fetch_candidate callOllamaVision count idx batch;
      cs ← candidates callOllamaVision count (S idx) rest;
      Ok (c :: cs)
  end.

(** The merge steps of the loop alone, on candidates already at hand. *)
Definition merge_all (merged : Merged) (cbs : list (obj * list base64)) : Merged :=
  fold_left (λ m cb, merge_batch m cb.1 cb.2) cbs merged.

(** The value of [key] in the earliest candidate that has one which is not
    [null] (or missing); [none] when no candidate has. *)
Fixpoint first_non_null (none : value) (key : jsstring) (cs : list obj) : value :=
  match cs with
  | [] => none
  | c :: rest =>
      if loose_null (get c key) then first_non_null none key rest
      else get c key
  end.

(** *** The merge policy in the words of the specification *)

(** "If the merged record's current value is null and the candidate's is
    non-null, adopt the candidate's value; otherwise keep the existing
    value." *)
Definition spec_scalar (current candidate : value) : value :=
  match loose_null current, loose_null candidate with
  | true, false => candidate
  | _, _ => current
  end.

(** "Initialize a merged record with every scalar field null, empty
    line-item sequence, and a zero page-count counter." *)
Definition spec_initial : Merged :=
  Build_Merged VNull VNull VNull VNull VNull VNull VNull [] (Build_Meta 0).

(** One step of the fold: first-non-null-wins on each scalar, the
    candidate's line items appended, the size of the batch added to the
    page counter. *)
Definition spec_merge (acc : Merged) (step : obj * nat) : Merged :=
  let '(candidate, size) := step in
  Build_Merged
    (spec_scalar (documentType acc) (get candidate (str "documentType")))
    (spec_scalar (invoiceNumber acc) (get candidate (str "invoiceNumber")))
    (spec_scalar (date acc) (get candidate (str "date")))
    (spec_scalar (vendor acc) (get candidate (str "vendor")))
    (spec_scalar (buyer acc) (get candidate (str "buyer")))
    (spec_scalar (total acc) (get candidate (str "total")))
    (spec_scalar (currency acc) (get candidate (str "currency")))
    (lineItems acc ++ candidate_items candidate)
    (Build_Meta (pagesProcessed (meta acc) + Z.of_nat size)).

(** Reduction is kept away from the literals and the library models. *)
Arguments str : simpl never.
Arguments lit : simpl never.
Arguments partial : simpl never.
Arguments parse_object : simpl never.
Arguments parse_model_output : simpl never.
Arguments zparse : simpl nomatch.

(** A candidate record: what the per-batch validation returns for some
    parsed value. *)
Definition validated (c : obj) : Prop :=
  ∃ parsed, parse_object (partial ExtractedDataSchema) parsed = Ok c.

(** *** A concrete run *)

(** A model that answers the first batch with an empty object, the second
    with a vendor and one line item, and every later batch with another
    vendor, two line items and a page count of its own. *)
Definition example_model (n count : nat) (images : list base64) : result jsstring :=
  match n with
  | 1%nat => Ok (lit "{}")
  | 2%nat => Ok (lit "{'vendor':'Acme','lineItems':[{'description':'a'}]}")
  | _ => Ok (lit "{'vendor':'Other','lineItems':[{'description':'b'},{'description':'c'}],'meta':{'pagesProcessed':99}}")
  end.

Definition example_batches : list (list base64) :=
  [ [str "p1"; str "p2"]; [str "p3"]; [str "p4"; str "p5"; str "p6"] ].

Definition example_candidates : list obj :=
  [ ∅;
    <[str "vendor" := VStr (str "Acme")]>
      {[ str "lineItems" := VArr [VObj {[ str "description" := VStr (str "a") ]}] ]};
    <[str "vendor" := VStr (str "Other")]>
      (<[str "lineItems" :=
           VArr [VObj {[ str "description" := VStr (str "b") ]};
                 VObj {[ str "description" := VStr (str "c") ]}]]>
         {[ str "meta" := VObj {[ str "pagesProcessed" := VNum 99 0 ]} ]}) ].

(** A converter for a PDF of [n] pages: pages [1] to [n] render, the next
    one throws. *)
Definition example_converter (n : nat) (pdfPath : jsstring) (page : nat)
  : result (option base64) :=
  if (page <=? n)%nat then Ok (Some (str "iVBORw0KGgo="))
  else Throw (Error (str "page out of range")).

(** A model that fills in every scalar field, and reports a page count of
    its own. *)
Definition example_full_model (n count : nat) (images : list base64) : result jsstring :=
  Ok (lit "{'documentType':'invoice','invoiceNumber':'INV-1','date':'2024-01-31','vendor':'Acme','buyer':'Bob','total':'100','currency':'USD','lineItems':[{'description':'widget','amount':'100'}],'meta':{'pagesProcessed':99}}").

Definition example_line_item : value :=
  VObj (<[str "description" := VStr (str "widget")]>
          {[ str "amount" := VStr (str "100") ]}).

(** The [data] of the answer to a PDF of seven pages read by that model. *)
Definition example_data : value :=
  VObj (list_to_map
    [ (str "documentType", VStr (str "invoice"));
      (str "invoiceNumber", VStr (str "INV-1"));
      (str "date", VStr (str "2024-01-31"));
      (str "vendor", VStr (str "Acme"));
      (str "buyer", VStr (str "Bob"));
      (str "total", VStr (str "100"));
      (str "currency", VStr (str "USD"));
      (str "lineItems", VArr [example_line_item; example_line_item]);
      (str "meta", VObj {[ str "pagesProcessed" := VNum 7 0 ]}) ]).

(** The position of the first and of the last occurrence of a character. *)
Definition first_at (c : N) (text : jsstring) (i : nat) : Prop :=
  text !! i = Some c ∧ ∀ j, (j < i)%nat → text !! j ≠ Some c.

Definition last_at (c : N) (text : jsstring) (i : nat) : Prop :=
  text !! i = Some c ∧ ∀ j, (i < j)%nat → text !! j ≠ Some c.

(** The text from position [s] to position [e], both included. *)
Definition substring (text : jsstring) (s e : nat) : jsstring :=
  take (e - s + 1) (drop s text).

(** There is a first opening brace, and the last closing brace comes after
    it. *)
Definition brace_pair (text : jsstring) (s e : nat) : Prop :=
  first_at 123 text s ∧ last_at 125 text e ∧ (s < e)%nat.

(** What the handler makes of the model's text: the parsed text when it is
    JSON; else the parsed text between the braces, or the parser's own
    [SyntaxError] when that is not JSON either; else, without such braces,
    the error of line 216. *)
Inductive recovery (content : jsstring) : result value → Prop :=
| recovery_direct v :
    JSON.parse content = Some v →
    recovery content (Ok v)
| recovery_braces s e :
    JSON.parse content = None →
    brace_pair content s e →
    recovery content (JSON_parse (substring content s e))
| recovery_none :
    JSON.parse content = None →
    (∀ s e, ¬ brace_pair content s e) →
    recovery content (Throw (Error (str "Model did not return valid JSON."))).

(** The same with the outcome the specification gives to text between
    braces that is not JSON: the error of line 216 again. *)
Inductive recovery_as_specified (content : jsstring) : result value → Prop :=
| specified_direct v :
    JSON.parse content = Some v →
    recovery_as_specified content (Ok v)
| specified_braces s e v :
    JSON.parse content = None →
    brace_pair content s e →
    JSON.parse (substring content s e) = Some v →
    recovery_as_specified content (Ok v)
| specified_invalid :
    JSON.parse content = None →
    (∀ s e v, brace_pair content s e → JSON.parse (substring content s e) ≠ Some v) →
    recovery_as_specified content
      (Throw (Error (str "Model did not return valid JSON."))).

(** The merged record of that run when the loop ends. *)
Definition example_merged : Merged :=
  {| documentType := VStr (str "invoice");
     invoiceNumber := VStr (str "INV-1");
     date := VStr (str "2024-01-31");
     vendor := VStr (str "Acme");
     buyer := VStr (str "Bob");
     total := VStr (str "100");
     currency := VStr (str "USD");
     lineItems := [example_line_item; example_line_item];
     meta := {| pagesProcessed := 7 |} |}.

(** The names an object schema declares. *)
Definition shape_keys (sc : schema) : list jsstring :=
  match sc with
  | z_object shape => shape.*1
  | _ => []
  end.

(** A parsed answer with two properties the schema does not declare. *)
Definition example_extra : obj :=
  <[str "vendor" := VStr (str "Acme")]>
    (<[str "confidence" := VNum 9 (-1)]>
       {[ str "notes" := VArr [VStr (str "blurry scan")] ]}).

(** * Further notions, for the rest of the handler *)

(** The image a call of the converter yields to the loop of lines 121 to
    130: the [base64] text when there is one and it is not empty. *)
Definition rendered (r : result (option base64)) : option base64 :=
  match r with
  | Ok (Some (c :: b)) => Some (c :: b)
  | _ => None
  end.

(** An object schema whose keys are pairwise distinct, at every level (the
    keys of a JavaScript object literal are). *)
Fixpoint schema_wf (sc : schema) : bool :=
  match sc with
  | z_string | z_number => true
  | z_optional inner => schema_wf inner
  | z_array element => schema_wf element
  | z_object shape =>
      bool_decide (NoDup shape.*1)
      && (fix fields (sh : list (jsstring * schema)) : bool :=
            match sh with
            | [] => true
            | (_, field) :: sh' => schema_wf field && fields sh'
            end) shape
  end.

(** What the schema of lines 31 to 54 accepts, in plain terms. *)
Definition string_or_absent (v : value) : Prop :=
  v = VUndefined ∨ ∃ s, v = VStr s.

Definition line_item_keys : list jsstring :=
  [str "description"; str "quantity"; str "unitPrice"; str "amount"].

Definition line_item_accepted (item : value) : Prop :=
  ∃ o, item = VObj o ∧ ∀ key, key ∈ line_item_keys → string_or_absent (get o key).

Definition line_items_accepted (v : value) : Prop :=
  v = VUndefined ∨ ∃ items, v = VArr items ∧ Forall line_item_accepted items.

Definition meta_accepted (v : value) : Prop :=
  v = VUndefined
  ∨ ∃ m, v = VObj m
         ∧ (get m (str "pagesProcessed") = VUndefined
            ∨ ∃ n e, get m (str "pagesProcessed") = VNum n e).

(** The decimal [m * 10^e] is within the range of doubles: [JSON.parse]
    reads it as a finite number.  Rounding to nearest gives [Infinity]
    from [2^1024 - 2^970] on, half a unit in the last place above the
    largest double. *)
Definition double_finite (m e : Z) : bool :=
  if (0 <=? e)%Z
  then (Z.abs m * 10 ^ e <? 2 ^ 1024 - 2 ^ 970)%Z
  else (Z.abs m <? (2 ^ 1024 - 2 ^ 970) * 10 ^ (- e))%Z.

(** The page count an answer reports, if it reports a number, is within
    the range of doubles. *)
Definition page_count_in_range (parsed : value) : Prop :=
  ∀ data m n e,
    parsed = VObj data →
    get data (str "meta") = VObj m →
    get m (str "pagesProcessed") = VNum n e →
    double_finite n e = true.

Definition answer_accepted (parsed : value) : Prop :=
  ∃ data, parsed = VObj data
          ∧ (∀ key : scalar_key, string_or_absent (get data (key_name key)))
          ∧ line_items_accepted (get data (str "lineItems"))
          ∧ meta_accepted (get data (str "meta")).

(** A line item as the validation returns it: an object with no property
    but the four declared ones, each a string (or [undefined], when the
    parsed value held an [undefined] there). *)
Definition line_item_record (item : value) : Prop :=
  ∃ o, item = VObj o
       ∧ ∀ key v, o !! key = Some v → key ∈ line_item_keys ∧ string_or_absent v.

(** The scalars of the merged record are [null] or strings. *)
Definition null_or_string (v : value) : Prop :=
  v = VNull ∨ ∃ s, v = VStr s.


(** ** The upload filter (lines 24 to 27) *)

Fixpoint startsWith (prefix s : jsstring) : bool :=
  match prefix, s with
  | [], _ => true
  | a :: prefix', b :: s' => (a =? b) && startsWith prefix' s'
  | _ :: _, [] => false
  end.

(** [s.includes(needle)]: the needle starts at some position of [s]. *)
Fixpoint includes (needle s : jsstring) : bool :=
  startsWith needle s
  || match s with
     | [] => false
     | _ :: s' => includes needle s'
     end.

(** [s.endsWith(suffix)] *)
Definition endsWith (suffix s : jsstring) : bool :=
  startsWith (reverse suffix) (reverse s).

(** What the filter reads of the uploaded file; [mimetype] may be missing. *)
Record upload := { mimetype : option jsstring; originalname : jsstring }.

Section Upload.

(** [String.prototype.toLowerCase], which follows the Unicode case
    mappings; the filter is modelled for any such function. *)
Variable toLowerCase : jsstring → jsstring.

(** [cb(null, true)] is [Ok true], [cb(new Error(...))] is [Throw]. *)
Definition fileFilter (file : upload) : result bool :=
  if includes (str "pdf") (default [] (mimetype file))
     || endsWith (str ".pdf") (toLowerCase (originalname file))
  then Ok true
  else Throw (Error (str "Only PDF files are allowed.")).

End Upload.

(** ** The answer of the model service (lines 72 to 105) *)

(** [v.key] on a value that is neither [null] nor [undefined]; of the
    properties read here ([message], [messages], [content]) only an object
    can have one. *)
Definition prop (v : value) (key : jsstring) : value :=
  match v with
  | VObj o => get o key
  | _ => VUndefined
  end.

(** [v?.key] *)
Definition opt_prop (v : value) (key : jsstring) : value :=
  if loose_null v then VUndefined else prop v key.

(** The white space and line terminators that [trim] removes. *)
Definition is_js_space (c : N) : bool :=
  (c =? 9) || (c =? 10) || (c =? 11) || (c =? 12) || (c =? 13) || (c =? 32)
  || (c =? 160) || (c =? 5760) || ((8192 <=? c) && (c <=? 8202))
  || (c =? 8232) || (c =? 8233) || (c =? 8239) || (c =? 8287)
  || (c =? 12288) || (c =? 65279).

Fixpoint trimStart (s : jsstring) : jsstring :=
  match s with
  | c :: r => if is_js_space c then trimStart r else s
  | [] => []
  end.

Definition trimEnd (s : jsstring) : jsstring :=
  reverse (trimStart (reverse s)).

Definition trim (s : jsstring) : jsstring := trimEnd (trimStart s).

(** [messages.map(m => m.content)]: reading [content] of [null] or
    [undefined] throws. *)
Definition message_contents (messages : list value) : option (list value) :=
  mapM (λ m, if loose_null m then None else Some (prop m (str "content")))
       messages.

Section Ollama.

(** [contents.join('\n')], with the conversion of every element to a
    string that it implies; [None] when that conversion throws. *)
Variable join_lines : list value → option jsstring.

(** Lines 100 to 105: the text of the answer in the body [data] of the
    response; [None] stands for a [TypeError]. *)
Definition response_content (data : value) : option jsstring :=
  let content :=
    let direct := opt_prop (opt_prop data (str "message")) (str "content") in
    if loose_null direct then
      match opt_prop data (str "messages") with
      | VArr messages =>
          match message_contents messages with
          | Some contents => VStr <$> join_lines contents
          | None => None
          end
      | _ => Some (VStr [])
      end
    else Some direct in
  match content with
  | Some (VStr s) =>
      Some (match trim s with
            | [] => []
            | t => t
            end)
  | Some VUndefined | Some VNull => Some []
  | Some _ => None
  | None => None
  end.

(** [axios.post] for batch [n] of [count]: the body of the response, or the
    error of the request. *)
Variable post : nat → nat → list base64 → result value.

(** The [TypeError] as the handler catches it. *)
Variable type_error : value → error.

(** Lines 57 to 106. *)
Definition callOllamaVision (n count : nat) (images : list base64) : result jsstring :=
  data ← post n count images;
  match response_content data with
  | Some text => Ok text
  | None => Throw (type_error data)
  end.

End Ollama.

(** A value the test [Array.isArray] rejects. *)
Definition isNotArray (v : value) : Prop :=
  match v with
  | VArr _ => False
  | _ => True
  end.

(** *** Responses of the model service *)

(** A response whose content is padded with white space and line breaks. *)
Definition example_response : value :=
  VObj {[ str "message" := VObj {[ str "content" := VStr (lit " {'total':'100'}
") ]} ]}.

(** A response whose content is white space only. *)
Definition example_blank_response : value :=
  VObj {[ str "message" := VObj {[ str "content" := VStr (str "   ") ]} ]}.
(** * Properties *)

(** ** [JSON.parse]: the fuel is enough *)

Module JSONFacts.
Import JSON.

Lemma skip_ws_length s : (length (skip_ws s) ≤ length s)%nat.
Proof.
  induction s as [|c s IH]; cbn; [done|].
  destruct (is_ws c); cbn; lia.
Qed.

Lemma string_body_length s body rest :
  string_body s = Some (body, rest) → (length rest < length s)%nat.
Proof.
  revert body rest.
  induction s as [s IH] using (induction_ltof1 _ (@length N)).
  unfold ltof in IH. intros body rest. destruct s as [|c r]; [done|]. cbn.
  destruct (c =? 34); [intros [= <- <-]; lia|].
  destruct (c =? 92).
  - destruct r as [|e r1]; [done|].
    destruct (e =? 117).
    + destruct r1 as [|h1 [|h2 [|h3 [|h4 r2]]]]; try done.
      destruct (hex_digit h1), (hex_digit h2), (hex_digit h3), (hex_digit h4);
        try done.
      destruct (string_body r2) as [[b' r']|] eqn:Hr2; [|done].
      intros [= <- <-]. apply IH in Hr2; cbn in *; lia.
    + destruct (escape e); [|done].
      destruct (string_body r1) as [[b' r']|] eqn:Hr1; [|done].
      intros [= <- <-]. apply IH in Hr1; cbn in *; lia.
  - destruct (c <? 32); [done|].
    destruct (string_body r) as [[b' r']|] eqn:Hr; [|done].
    intros [= <- <-]. apply IH in Hr; cbn in *; lia.
Qed.

Lemma take_digits_length s :
  (length (take_digits s).2 ≤ length s)%nat.
Proof.
  induction s as [|c s IH]; cbn; [done|].
  destruct (is_digit c); cbn; [|lia].
  destruct (take_digits s) as [ds r]. cbn in *. lia.
Qed.

Lemma number_length s v rest :
  number s = Some (v, rest) → (length rest < length s)%nat.
Proof.
  unfold number.
  set (sign := match s with
               | c :: r => if c =? 45 then (true, r) else (false, s)
               | [] => (false, s)
               end).
  assert (Hsign : (length sign.2 ≤ length s)%nat).
  { subst sign. destruct s as [|c r]; cbn; [done|]. destruct (c =? 45); cbn; lia. }
  destruct sign as [neg s1]. cbn in Hsign.
  set (int_part := match s1 with
                   | c :: r =>
                       if c =? 48 then Some ([48], r)
                       else if is_digit c then Some (take_digits s1)
                       else None
                   | [] => None
                   end).
  assert (Hint : ∀ ints s2, int_part = Some (ints, s2) →
                            (length s2 < length s1)%nat).
  { subst int_part. intros ints s2. destruct s1 as [|c r]; [done|].
    destruct (c =? 48); [intros [= <- <-]; cbn; lia|].
    destruct (is_digit c) eqn:Hd; [|done].
    cbn. rewrite Hd. pose proof (take_digits_length r).
    destruct (take_digits r) as [ds r']. intros [= <- <-]. cbn in *. lia. }
  destruct int_part as [[ints s2]|]; [|done].
  specialize (Hint _ _ eq_refl).
  set (frac_part := match s2 with
                    | c :: r =>
                        if c =? 46 then
                          match take_digits r with
                          | ([], _) => None
                          | (ds, r') => Some (ds, r')
                          end
                        else Some ([], s2)
                    | [] => Some ([], s2)
                    end).
  assert (Hfrac : ∀ fracs s3, frac_part = Some (fracs, s3) →
                              (length s3 ≤ length s2)%nat).
  { subst frac_part. intros fracs s3. destruct s2 as [|c r]; [by intros [= <- <-]|].
    destruct (c =? 46); [|by intros [= <- <-]].
    pose proof (take_digits_length r).
    destruct (take_digits r) as [[|d ds] r']; [done|].
    intros [= <- <-]. cbn in *. lia. }
  destruct frac_part as [[fracs s3]|]; [|done].
  specialize (Hfrac _ _ eq_refl).
  set (exp_part := match s3 with
                   | c :: r => _
                   | [] => Some (0%Z, s3)
                   end).
  assert (Hexp : ∀ e s4, exp_part = Some (e, s4) → (length s4 ≤ length s3)%nat).
  { subst exp_part. intros e s4. destruct s3 as [|c r]; [by intros [= <- <-]|].
    destruct ((c =? 101) || (c =? 69)); [|by intros [= <- <-]].
    set (esign := match r with
                  | sg :: r' => _
                  | [] => (false, r)
                  end).
    assert (Hes : (length esign.2 ≤ length r)%nat).
    { subst esign. destruct r as [|sg r']; cbn; [done|].
      destruct (sg =? 45); cbn; [lia|]. destruct (sg =? 43); cbn; lia. }
    destruct esign as [eneg r1]. cbn in Hes.
    pose proof (take_digits_length r1).
    destruct (take_digits r1) as [[|d ds] r2]; [done|].
    intros [= <- <-]. cbn in *. lia. }
  destruct exp_part as [[e s4]|]; [|done].
  specialize (Hexp _ _ eq_refl).
  intros [= <- <-]. lia.
Qed.

Lemma strip_prefix_length p s rest :
  strip_prefix p s = Some rest → length s = (length p + length rest)%nat.
Proof.
  revert s. induction p as [|a p IH]; intros s; cbn.
  - by intros [= <-].
  - destruct s as [|b s]; [done|]. destruct (a =? b); [|done].
    intros H%IH. cbn. lia.
Qed.

Lemma keyword_length s v rest :
  keyword s = Some (v, rest) → (length rest < length s)%nat.
Proof.
  unfold keyword.
  destruct (strip_prefix (str "true") s) eqn:H1.
  { intros [= <- <-]. apply strip_prefix_length in H1.
    change (length (str "true")) with 4%nat in H1. lia. }
  destruct (strip_prefix (str "false") s) eqn:H2.
  { intros [= <- <-]. apply strip_prefix_length in H2.
    change (length (str "false")) with 5%nat in H2. lia. }
  destruct (strip_prefix (str "null") s) eqn:H3; [|done].
  intros [= <- <-]. apply strip_prefix_length in H3.
  change (length (str "null")) with 4%nat in H3. lia.
Qed.

(** One unfolding of each parser. *)
Lemma parse_value_S fuel s :
  parse_value (S fuel) s
  = match skip_ws s with
    | [] => None
    | c :: r =>
        if c =? 123 then
          match skip_ws r with
          | c' :: r' =>
              if c' =? 125 then Some (VObj ∅, r')
              else
                match parse_members fuel r ∅ with
                | Some (o, rest) => Some (VObj o, rest)
                | None => None
                end
          | [] => None
          end
        else if c =? 91 then
          match skip_ws r with
          | c' :: r' =>
              if c' =? 93 then Some (VArr [], r')
              else
                match parse_elements fuel r [] with
                | Some (l, rest) => Some (VArr l, rest)
                | None => None
                end
          | [] => None
          end
        else if c =? 34 then
          match string_body r with
          | Some (body, rest) => Some (VStr body, rest)
          | None => None
          end
        else if (c =? 45) || is_digit c then number (c :: r)
        else keyword (c :: r)
    end.
Proof. done. Qed.

Lemma parse_elements_S fuel s acc :
  parse_elements (S fuel) s acc
  = match parse_value fuel s with
    | Some (v, r) =>
        match skip_ws r with
        | c :: r' =>
            if c =? 44 then parse_elements fuel r' (acc ++ [v])
            else if c =? 93 then Some (acc ++ [v], r')
            else None
        | [] => None
        end
    | None => None
    end.
Proof. done. Qed.

Lemma parse_members_S fuel s acc :
  parse_members (S fuel) s acc
  = match skip_ws s with
    | q :: r =>
        if q =? 34 then
          match string_body r with
          | Some (key, r1) =>
              match skip_ws r1 with
              | colon :: r2 =>
                  if colon =? 58 then
                    match parse_value fuel r2 with
                    | Some (v, r3) =>
                        match skip_ws r3 with
                        | c :: r4 =>
                            if c =? 44 then parse_members fuel r4 (<[key := v]> acc)
                            else if c =? 125 then Some (<[key := v]> acc, r4)
                            else None
                        | [] => None
                        end
                    | None => None
                    end
                  else None
              | [] => None
              end
          | None => None
          end
        else None
    | [] => None
    end.
Proof. done. Qed.

Ltac ws_length s :=
  let H := fresh "Hws" in pose proof (skip_ws_length s) as H.

(** Every parser consumes at least one character. *)
Lemma parse_length fuel :
  (∀ s v rest, parse_value fuel s = Some (v, rest) →
               (length rest < length s)%nat)
  ∧ (∀ s acc l rest, parse_elements fuel s acc = Some (l, rest) →
                     (length rest < length s)%nat)
  ∧ (∀ s acc o rest, parse_members fuel s acc = Some (o, rest) →
                     (length rest < length s)%nat).
Proof.
  induction fuel as [|fuel (IHv & IHe & IHm)]; [by repeat split|].
  repeat split.
  - intros s v rest. rewrite parse_value_S. ws_length s.
    destruct (skip_ws s) as [|c r]; [done|]. cbn in Hws. ws_length r.
    destruct (c =? 123).
    { destruct (skip_ws r) as [|c' r']; [done|]. cbn in *.
      destruct (c' =? 125); [intros [= <- <-]; lia|].
      destruct (parse_members fuel r ∅) as [[o rest']|] eqn:Hm; [|done].
      intros [= <- <-]. apply IHm in Hm. lia. }
    destruct (c =? 91).
    { destruct (skip_ws r) as [|c' r']; [done|]. cbn in *.
      destruct (c' =? 93); [intros [= <- <-]; lia|].
      destruct (parse_elements fuel r []) as [[l rest']|] eqn:He; [|done].
      intros [= <- <-]. apply IHe in He. lia. }
    destruct (c =? 34).
    { destruct (string_body r) as [[body rest']|] eqn:Hs; [|done].
      intros [= <- <-]. apply string_body_length in Hs. lia. }
    destruct ((c =? 45) || is_digit c).
    + intros H%number_length. cbn in H. lia.
    + intros H%keyword_length. cbn in H. lia.
  - intros s acc l rest. rewrite parse_elements_S.
    destruct (parse_value fuel s) as [[v r]|] eqn:Hv; [|done].
    apply IHv in Hv. ws_length r.
    destruct (skip_ws r) as [|c r']; [done|]. cbn in *.
    destruct (c =? 44).
    { intros H%IHe. lia. }
    destruct (c =? 93); [|done]. intros [= <- <-]. lia.
  - intros s acc o rest. rewrite parse_members_S. ws_length s.
    destruct (skip_ws s) as [|q r]; [done|]. cbn in Hws.
    destruct (q =? 34); [|done].
    destruct (string_body r) as [[key r1]|] eqn:Hs; [|done].
    apply string_body_length in Hs. ws_length r1.
    destruct (skip_ws r1) as [|colon r2]; [done|]. cbn in *.
    destruct (colon =? 58); [|done].
    destruct (parse_value fuel r2) as [[v r3]|] eqn:Hv; [|done].
    apply IHv in Hv. ws_length r3.
    destruct (skip_ws r3) as [|c r4]; [done|]. cbn in *.
    destruct (c =? 44).
    { intros H%IHm. lia. }
    destruct (c =? 125); [|done]. intros [= <- <-]. lia.
Qed.

(** With [2 * length s + 1] units of fuel for a value (one more for the
    items of an array or the members of an object), one unit more changes
    nothing. *)
Lemma parse_fuel_step fuel :
  (∀ s, (2 * length s + 1 ≤ fuel)%nat →
        parse_value (S fuel) s = parse_value fuel s)
  ∧ (∀ s acc, (2 * length s + 2 ≤ fuel)%nat →
              parse_elements (S fuel) s acc = parse_elements fuel s acc)
  ∧ (∀ s acc, (2 * length s + 2 ≤ fuel)%nat →
              parse_members (S fuel) s acc = parse_members fuel s acc).
Proof.
  induction fuel as [|fuel (IHv & IHe & IHm)].
  { repeat split; intros; lia. }
  destruct (parse_length fuel) as (Lv & _ & _).
  repeat split.
  - intros s Hfuel. rewrite (parse_value_S (S fuel)), (parse_value_S fuel).
    ws_length s. destruct (skip_ws s) as [|c r]; [done|]. cbn in Hws. ws_length r.
    destruct (c =? 123).
    { destruct (skip_ws r) as [|c' r']; [done|].
      destruct (c' =? 125); [done|]. by rewrite IHm by lia. }
    destruct (c =? 91); [|done].
    destruct (skip_ws r) as [|c' r']; [done|].
    destruct (c' =? 93); [done|]. by rewrite IHe by lia.
  - intros s acc Hfuel.
    rewrite (parse_elements_S (S fuel)), (parse_elements_S fuel).
    rewrite IHv by lia.
    destruct (parse_value fuel s) as [[v r]|] eqn:Hv; [|done].
    apply Lv in Hv. ws_length r.
    destruct (skip_ws r) as [|c r']; [done|]. cbn in *.
    destruct (c =? 44); [|done]. by rewrite IHe by lia.
  - intros s acc Hfuel.
    rewrite (parse_members_S (S fuel)), (parse_members_S fuel). ws_length s.
    destruct (skip_ws s) as [|q r]; [done|]. cbn in Hws.
    destruct (q =? 34); [|done].
    destruct (string_body r) as [[key r1]|] eqn:Hs; [|done].
    apply string_body_length in Hs. ws_length r1.
    destruct (skip_ws r1) as [|colon r2]; [done|]. cbn in *.
    destruct (colon =? 58); [|done].
    rewrite IHv by lia.
    destruct (parse_value fuel r2) as [[v r3]|] eqn:Hv; [|done].
    apply Lv in Hv. ws_length r3.
    destruct (skip_ws r3) as [|c r4]; [done|]. cbn in *.
    destruct (c =? 44); [|done]. by rewrite IHm by lia.
Qed.

(** [JSON.parse] never fails for lack of fuel: any larger amount gives the
    result of the amount it uses. *)
Lemma parse_value_fuel text fuel :
  (S (2 * length text) ≤ fuel)%nat →
  parse_value fuel text = parse_value (S (2 * length text)) text.
Proof.
  induction 1 as [|fuel Hle IH]; [done|].
  rewrite <- IH. apply parse_fuel_step. lia.
Qed.

End JSONFacts.


(** ** The batch planner *)

Lemma slice_nat {A} (l : list A) (i j : nat) :
  slice l (Z.of_nat i) (Z.of_nat j) = take (j - i) (drop i l).
Proof.
  unfold slice, clamp_index.
  destruct (Z.ltb_spec (Z.of_nat i) 0); [lia|].
  destruct (Z.ltb_spec (Z.of_nat j) 0); [lia|].
  destruct (le_lt_dec (length l) i) as [Hi|Hi].
  - rewrite !drop_ge by lia. by rewrite !take_nil.
  - replace (Z.to_nat (Z.of_nat i `min` Z.of_nat (length l))) with i by lia.
    destruct (le_lt_dec (length l) j) as [Hj|Hj].
    + rewrite !take_ge; [done| |]; rewrite length_drop; lia.
    + f_equal. lia.
Qed.

Lemma ceil_div_spec (n b : nat) :
  (0 < b)%nat →
  (n ≤ b * ceil_div n b)%nat ∧ (b * ceil_div n b < n + b)%nat.
Proof.
  intros Hb. unfold ceil_div.
  pose proof (Nat.div_mod (n + (b - 1)) b ltac:(lia)) as Hdm.
  pose proof (Nat.mod_upper_bound (n + (b - 1)) b ltac:(lia)).
  lia.
Qed.

Lemma ceil_div_step (k b : nat) :
  (0 < b)%nat → (0 < k)%nat → ceil_div k b = S (ceil_div (k - b) b).
Proof.
  intros Hb Hk. unfold ceil_div.
  destruct (le_lt_dec b k) as [Hle|Hlt].
  - replace (k + (b - 1))%nat with ((k - b + (b - 1)) + 1 * b)%nat by lia.
    rewrite Nat.div_add by lia. lia.
  - replace (k - b)%nat with 0%nat by lia.
    rewrite (Nat.div_small (0 + (b - 1))) by lia.
    replace (k + (b - 1))%nat with ((k - 1) + 1 * b)%nat by lia.
    rewrite Nat.div_add by lia. rewrite Nat.div_small by lia. done.
Qed.

Section BatchLoop.

Variable pages : list base64.

(** What the loop has built when it stops, provided the fuel lasts. *)
Lemma batch_loop_concat fuel i batches :
  (length pages ≤ i + BATCH_SIZE * fuel)%nat →
  concat (batch_loop fuel pages i batches) = concat batches ++ drop i pages.
Proof.
  revert i batches. induction fuel as [|fuel IH]; intros i batches Hfuel; simpl.
  - rewrite drop_ge by lia. by rewrite app_nil_r.
  - destruct (Nat.ltb_spec i (length pages)) as [Hlt|Hge].
    + rewrite IH by (unfold BATCH_SIZE in *; lia).
      rewrite concat_app, slice_nat. simpl. rewrite app_nil_r, <- app_assoc.
      f_equal. replace (i + BATCH_SIZE - i)%nat with BATCH_SIZE by lia.
      rewrite <- (take_drop BATCH_SIZE (drop i pages)) at 2.
      f_equal. by rewrite drop_drop.
    + rewrite drop_ge by lia. by rewrite app_nil_r.
Qed.

Lemma batch_loop_length fuel i batches :
  (length pages ≤ i + BATCH_SIZE * fuel)%nat →
  length (batch_loop fuel pages i batches)
  = (length batches + ceil_div (length pages - i) BATCH_SIZE)%nat.
Proof.
  revert i batches.
  induction fuel as [|fuel IH]; intros i batches Hfuel; cbn [batch_loop].
  - replace (length pages - i)%nat with 0%nat by lia. cbn. lia.
  - destruct (Nat.ltb_spec i (length pages)) as [Hlt|Hge].
    + rewrite IH by (unfold BATCH_SIZE in *; lia).
      rewrite length_app. cbn [length].
      rewrite (ceil_div_step (length pages - i) BATCH_SIZE)
        by (unfold BATCH_SIZE; lia).
      replace (length pages - (i + BATCH_SIZE))%nat
        with (length pages - i - BATCH_SIZE)%nat by lia.
      lia.
    + replace (length pages - i)%nat with 0%nat by lia. cbn. lia.
Qed.

Lemma batch_loop_sizes fuel i batches :
  Forall (λ b, (0 < length b ≤ BATCH_SIZE)%nat) batches →
  Forall (λ b, (0 < length b ≤ BATCH_SIZE)%nat) (batch_loop fuel pages i batches).
Proof.
  revert i batches. induction fuel as [|fuel IH]; intros i batches Hacc; simpl.
  - done.
  - destruct (Nat.ltb_spec i (length pages)) as [Hlt|Hge]; [|done].
    apply IH. apply Forall_app. split; [done|].
    constructor; [|constructor].
    rewrite slice_nat, length_take, length_drop. unfold BATCH_SIZE. lia.
Qed.

(** The loop leaves by its own test, not by lack of fuel: more fuel than
    [length pages] changes nothing. *)
Lemma batch_loop_fuel fuel i batches :
  (length pages ≤ i + BATCH_SIZE * fuel)%nat →
  batch_loop (S fuel) pages i batches = batch_loop fuel pages i batches.
Proof.
  revert i batches. induction fuel as [|fuel IH]; intros i batches Hfuel.
  - simpl. destruct (Nat.ltb_spec i (length pages)); [lia|done].
  - change (batch_loop (S (S fuel)) pages i batches)
      with (if (i <? length pages)%nat
            then batch_loop (S fuel) pages (i + BATCH_SIZE)
                   (batches ++ [slice pages (Z.of_nat i) (Z.of_nat (i + BATCH_SIZE))])
            else batches).
    change (batch_loop (S fuel) pages i batches)
      with (if (i <? length pages)%nat
            then batch_loop fuel pages (i + BATCH_SIZE)
                   (batches ++ [slice pages (Z.of_nat i) (Z.of_nat (i + BATCH_SIZE))])
            else batches).
    destruct (Nat.ltb_spec i (length pages)); [|done].
    apply IH. unfold BATCH_SIZE in *. lia.
Qed.

End BatchLoop.

Lemma make_batches_concat (pages : list base64) :
  concat (make_batches pages) = pages.
Proof.
  unfold make_batches.
  by rewrite batch_loop_concat by (unfold BATCH_SIZE; lia).
Qed.

(** C4. For every ordered sequence of pages (the empty one included) and the
    batch size 6, the planner of lines 178 to 181 makes exactly the ceiling
    of N/6 groups, their concatenation in order is the page sequence itself
    (so the groups are contiguous, every page occurs once and the order is
    kept within and across groups), every group has at most 6 pages and no
    group is empty. *)
Theorem batch_planner_partition (pages : list base64) :
  let batches := make_batches pages in
  BATCH_SIZE = 6%nat
  ∧ length batches = ((length pages + 5) / 6)%nat
  ∧ (length pages ≤ 6 * length batches < length pages + 6)%nat
  ∧ concat batches = pages
  ∧ Forall (λ b, (0 < length b ≤ 6)%nat) batches.
Proof.
  intros batches. subst batches. unfold make_batches.
  assert (Hlen : length (batch_loop (length pages) pages 0 [])
                 = ceil_div (length pages) BATCH_SIZE).
  { rewrite batch_loop_length by (unfold BATCH_SIZE; lia).
    simpl. by rewrite Nat.sub_0_r. }
  split; [done|]. split; [exact Hlen|]. split.
  - rewrite Hlen. pose proof (ceil_div_spec (length pages) BATCH_SIZE).
    unfold BATCH_SIZE in *. lia.
  - split.
    + apply make_batches_concat.
    + by apply (batch_loop_sizes pages).
Qed.

(** ** One merge step *)

Lemma scalar_keys_complete (key : scalar_key) : key ∈ scalar_keys.
Proof. destruct key; unfold scalar_keys; set_solver. Qed.

Lemma merged_get_set merged key key' v :
  merged_get (merged_set merged key' v) key
  = if decide (key = key') then v else merged_get merged key.
Proof. by destruct merged, key, key'. Qed.

Lemma lineItems_set merged key v :
  lineItems (merged_set merged key v) = lineItems merged.
Proof. by destruct merged, key. Qed.

Lemma meta_set merged key v : meta (merged_set merged key v) = meta merged.
Proof. by destruct merged, key. Qed.

Lemma Merged_ext (m1 m2 : Merged) :
  (∀ key, merged_get m1 key = merged_get m2 key) →
  lineItems m1 = lineItems m2 →
  meta m1 = meta m2 →
  m1 = m2.
Proof.
  intros Hget Hitems Hmeta. destruct m1, m2. simpl in *.
  pose proof (Hget KdocumentType). pose proof (Hget KinvoiceNumber).
  pose proof (Hget Kdate). pose proof (Hget Kvendor). pose proof (Hget Kbuyer).
  pose proof (Hget Ktotal). pose proof (Hget Kcurrency).
  simpl in *. congruence.
Qed.

Lemma first_wins_idem current candidate :
  first_wins (first_wins current candidate) candidate = first_wins current candidate.
Proof.
  unfold first_wins.
  destruct (loose_null current) eqn:Hc, (loose_null candidate) eqn:Hd; simpl;
    rewrite ?Hc, ?Hd; done.
Qed.

Lemma merge_scalar_get result merged key' key :
  merged_get (merge_scalar result merged key') key
  = if decide (key = key')
    then first_wins (merged_get merged key) (get result (key_name key))
    else merged_get merged key.
Proof.
  unfold merge_scalar, first_wins.
  destruct (decide (key = key')) as [->|Hne].
  - case_match; [|done]. rewrite merged_get_set. by rewrite decide_True.
  - case_match; [|done]. rewrite merged_get_set. by rewrite decide_False.
Qed.

Lemma merge_scalars_get result keys merged key :
  merged_get (fold_left (merge_scalar result) keys merged) key
  = if decide (key ∈ keys)
    then first_wins (merged_get merged key) (get result (key_name key))
    else merged_get merged key.
Proof.
  revert merged. induction keys as [|k keys IH]; intros merged; cbn [fold_left].
  - destruct (decide (key ∈ [])) as [Hin|_]; [|done].
    by apply not_elem_of_nil in Hin.
  - rewrite IH, merge_scalar_get.
    destruct (decide (key = k)) as [->|Hne].
    + rewrite first_wins_idem.
      destruct (decide (k ∈ k :: keys)) as [_|Hnin].
      * by destruct (decide (k ∈ keys)).
      * exfalso. apply Hnin, elem_of_cons. by left.
    + destruct (decide (key ∈ keys)) as [Hin|Hnin];
        destruct (decide (key ∈ k :: keys)) as [Hin'|Hnin']; try done.
      * exfalso. apply Hnin', elem_of_cons. by right.
      * apply elem_of_cons in Hin' as [?|?]; done.
Qed.

Lemma merge_scalars_lineItems result keys merged :
  lineItems (fold_left (merge_scalar result) keys merged) = lineItems merged.
Proof.
  revert merged. induction keys as [|k keys IH]; intros merged; simpl; [done|].
  rewrite IH. unfold merge_scalar. case_match; [|done]. apply lineItems_set.
Qed.

Lemma merge_scalars_meta result keys merged :
  meta (fold_left (merge_scalar result) keys merged) = meta merged.
Proof.
  revert merged. induction keys as [|k keys IH]; intros merged; simpl; [done|].
  rewrite IH. unfold merge_scalar. case_match; [|done]. apply meta_set.
Qed.

Lemma merge_batch_get merged result batch key :
  merged_get (merge_batch merged result batch) key
  = first_wins (merged_get merged key) (get result (key_name key)).
Proof.
  unfold merge_batch.
  set (m1 := fold_left (merge_scalar result) scalar_keys merged).
  assert (H1 : merged_get m1 key
               = first_wins (merged_get merged key) (get result (key_name key))).
  { subst m1. rewrite merge_scalars_get.
    rewrite decide_True; [done|]. apply scalar_keys_complete. }
  rewrite <- H1.
  destruct (get result (str "lineItems")); destruct m1, key; done.
Qed.

Lemma merge_batch_lineItems merged result batch :
  lineItems (merge_batch merged result batch)
  = lineItems merged ++ candidate_items result.
Proof.
  unfold merge_batch, candidate_items.
  set (m1 := fold_left (merge_scalar result) scalar_keys merged).
  assert (H1 : lineItems m1 = lineItems merged)
    by apply merge_scalars_lineItems.
  rewrite <- H1.
  destruct (get result (str "lineItems")); destruct m1; simpl;
    by rewrite ?app_nil_r.
Qed.

Lemma merge_batch_pages merged result batch :
  pagesProcessed (meta (merge_batch merged result batch))
  = (pagesProcessed (meta merged) + Z.of_nat (length batch))%Z.
Proof.
  unfold merge_batch.
  set (m1 := fold_left (merge_scalar result) scalar_keys merged).
  assert (H1 : meta m1 = meta merged) by apply merge_scalars_meta.
  rewrite <- H1.
  destruct (get result (str "lineItems")); destruct m1; done.
Qed.

(** ** The loop over the batches *)

Lemma bind_Ok {A B} (a : A) (f : A → result B) : (Ok a ≫= f) = f a.
Proof. done. Qed.

Lemma bind_Throw {A B} (e : error) (f : A → result B) : (Throw e ≫= f) = Throw e.
Proof. done. Qed.

Section Loop.

Variable callOllamaVision : nat → nat → list base64 → result jsstring.

(** The loop is: get every candidate in order, then merge them in order. *)
Lemma process_batches_candidates count idx merged batches :
  process_batches callOllamaVision count idx merged batches
  = cs ← candidates callOllamaVision count idx batches;
    Ok (merge_all merged (zip cs batches)).
Proof.
  revert idx merged.
  induction batches as [|batch rest IH]; intros idx merged; [done|].
  cbn [process_batches candidates]. unfold fetch_candidate.
  destruct (callOllamaVision (idx + 1)%nat count batch) as [content|e]; [|done].
  cbn. destruct (parse_model_output content) as [parsed|e]; [|done].
  cbn. destruct (parse_object (partial ExtractedDataSchema) parsed) as [c|e]; [|done].
  cbn. rewrite IH.
  by destruct (candidates callOllamaVision count (S idx) rest).
Qed.

Lemma candidates_length count idx batches cs :
  candidates callOllamaVision count idx batches = Ok cs →
  length cs = length batches.
Proof.
  revert idx cs. induction batches as [|batch rest IH]; intros idx cs; cbn.
  - by intros [= <-].
  - destruct (fetch_candidate callOllamaVision count idx batch); [|done].
    cbn. destruct (candidates callOllamaVision count (S idx) rest) eqn:Hrest; [|done].
    cbn. intros [= <-]. cbn. f_equal. by eapply IH.
Qed.



End Loop.


Lemma merge_all_get merged cbs key :
  merged_get (merge_all merged cbs) key
  = if loose_null (merged_get merged key)
    then first_non_null (merged_get merged key) (key_name key) cbs.*1
    else merged_get merged key.
Proof.
  revert merged. induction cbs as [|[c b] cbs IH]; intros merged; cbn.
  - by destruct (loose_null _).
  - fold (merge_all (merge_batch merged c b) cbs).
    rewrite IH, merge_batch_get. unfold first_wins.
    destruct (loose_null (merged_get merged key)) eqn:Hm; cbn.
    + destruct (loose_null (get c (key_name key))) eqn:Hc; cbn.
      * by rewrite Hm.
      * by rewrite Hc.
    + by rewrite Hm.
Qed.

Lemma merge_all_lineItems merged cbs :
  lineItems (merge_all merged cbs)
  = lineItems merged ++ concat (candidate_items <$> cbs.*1).
Proof.
  revert merged. induction cbs as [|[c b] cbs IH]; intros merged; cbn.
  - by rewrite app_nil_r.
  - fold (merge_all (merge_batch merged c b) cbs).
    by rewrite IH, merge_batch_lineItems, <- app_assoc.
Qed.

Lemma merge_all_pages merged cbs :
  pagesProcessed (meta (merge_all merged cbs))
  = (pagesProcessed (meta merged) + Z.of_nat (length (concat cbs.*2)))%Z.
Proof.
  revert merged. induction cbs as [|[c b] cbs IH]; intros merged; cbn.
  - lia.
  - fold (merge_all (merge_batch merged c b) cbs).
    rewrite IH, merge_batch_pages, length_app. lia.
Qed.

Lemma zip_fst_candidates {A B} (l : list A) (k : list B) :
  length l = length k → (zip l k).*1 = l.
Proof. intros H. apply fst_zip. lia. Qed.

Lemma zip_snd_batches {A B} (l : list A) (k : list B) :
  length l = length k → (zip l k).*2 = k.
Proof. intros H. apply snd_zip. lia. Qed.

(** ** The validator on objects *)

Lemma zparse_object shape data :
  zparse (z_object shape) (VObj data) = VObj <$> object_fields zparse data shape.
Proof. done. Qed.

(** An object schema returns objects only: [parse_object] loses nothing. *)
Lemma zparse_object_is_object shape v r :
  zparse (z_object shape) v = Some r → ∃ o, r = VObj o.
Proof.
  destruct v; try done. rewrite zparse_object.
  destruct (object_fields zparse props shape) as [o|]; [|done].
  intros [= <-]. eauto.
Qed.

Lemma parse_object_Ok shape v o :
  parse_object (z_object shape) v = Ok o ↔
  ∃ data, v = VObj data ∧ object_fields zparse data shape = Some o.
Proof.
  unfold parse_object. split.
  - destruct v; try done. rewrite zparse_object.
    destruct (object_fields zparse props shape) as [o'|] eqn:Hf; [|done].
    cbn. intros [= <-]. eauto.
  - intros (data & -> & Hf). rewrite zparse_object, Hf. done.
Qed.

Section ObjectFields.

Variable check : schema → value → option value.
Variable data : obj.

(** A property the shape does not name never reaches the output. *)
Lemma object_fields_other sh o key :
  object_fields check data sh = Some o → key ∉ sh.*1 → o !! key = None.
Proof.
  revert o. induction sh as [|[k field] sh IH]; intros o; cbn.
  - intros [= <-] _. apply lookup_empty.
  - destruct (check field (get data k)) as [out|]; [|done].
    destruct (object_fields check data sh) as [rest|]; [|done].
    intros [= <-] Hnin. apply not_elem_of_cons in Hnin as [Hne Hnin].
    specialize (IH rest eq_refl Hnin).
    destruct out, (data !! k); try done;
      by rewrite lookup_insert_ne.
Qed.

(** A key of the shape was checked, and the output holds the checked value
    (nothing, when the key is missing and checks to [undefined]). *)
Lemma object_fields_key sh o key field :
  NoDup sh.*1 →
  object_fields check data sh = Some o →
  (key, field) ∈ sh →
  ∃ out, check field (get data key) = Some out
         ∧ o !! key = match out, data !! key with
                      | VUndefined, None => None
                      | _, _ => Some out
                      end.
Proof.
  revert o. induction sh as [|[k fld] sh IH]; intros o Hnd; cbn.
  - intros _ Hin. by apply elem_of_nil in Hin.
  - apply NoDup_cons in Hnd as [Hk Hnd].
    destruct (check fld (get data k)) as [out|] eqn:Hout; [|done].
    destruct (object_fields check data sh) as [rest|] eqn:Hrest; [|done].
    intros [= <-] Hin. apply elem_of_cons in Hin as [[= -> ->]|Hin].
    + exists out. split; [done|].
      pose proof (object_fields_other sh rest k Hrest Hk) as Hnone.
      destruct out, (data !! k); try done; by rewrite lookup_insert_eq.
    + destruct (IH rest Hnd eq_refl Hin) as (out' & Hc & Hl).
      exists out'. split; [done|].
      assert (k ≠ key).
      { intros ->. apply Hk. apply list_elem_of_fmap. by exists (key, field). }
      destruct out, (data !! k); try done; by rewrite lookup_insert_ne.
Qed.

(** Validation succeeds exactly when every key of the shape checks. *)
Lemma object_fields_is_Some sh :
  is_Some (object_fields check data sh)
  ↔ Forall (λ kf, is_Some (check kf.2 (get data kf.1))) sh.
Proof.
  induction sh as [|[k fld] sh IH]; cbn.
  - split; [constructor|eauto].
  - rewrite Forall_cons, <- IH. cbn.
    destruct (check fld (get data k)) as [out|];
      destruct (object_fields check data sh) as [rest|]; split;
      try (intros [? [=]]); try (intros [[? [=]] ?]); try (intros [? [? [=]]]);
      eauto.
Qed.

End ObjectFields.

(** Properties with other names do not matter to the validator. *)
Lemma object_fields_insert_other check data sh key v :
  key ∉ sh.*1 →
  object_fields check (<[key := v]> data) sh = object_fields check data sh.
Proof.
  induction sh as [|[k fld] sh IH]; [done|].
  intros Hnin. apply not_elem_of_cons in Hnin as [Hne Hnin]. cbn in Hne.
  cbn. rewrite (IH Hnin). unfold get.
  by rewrite lookup_insert_ne.
Qed.

(** ** Candidate records *)

Lemma partial_ExtractedDataSchema :
  partial ExtractedDataSchema
  = z_object ((λ kf, (kf.1, z_optional kf.2)) <$>
      [ (str "documentType", z_optional z_string);
        (str "invoiceNumber", z_optional z_string);
        (str "date", z_optional z_string);
        (str "vendor", z_optional z_string);
        (str "buyer", z_optional z_string);
        (str "total", z_optional z_string);
        (str "currency", z_optional z_string);
        (str "lineItems", z_optional (z_array LineItemSchema));
        (str "meta", z_optional MetaSchema) ]).
Proof. done. Qed.

Ltac shape_nodup := refine (bool_decide_unpack _ _); vm_compute; exact I.
Ltac shape_elem :=
  cbn [fmap list_fmap fst snd];
  repeat first [ apply list_elem_of_here | apply list_elem_of_further ].

Lemma validated_lineItems c :
  validated c →
  get c (str "lineItems") = VUndefined
  ∨ get c (str "lineItems") = VArr (candidate_items c).
Proof.
  intros [parsed Hc]. rewrite partial_ExtractedDataSchema in Hc.
  apply parse_object_Ok in Hc as (data & -> & Hf).
  eapply (object_fields_key _ _ _ _ (str "lineItems")
            (z_optional (z_optional (z_array LineItemSchema)))) in Hf
    as (out & Hout & Hlook); [|shape_nodup|shape_elem].
  unfold candidate_items, get. rewrite Hlook.
  destruct (get data (str "lineItems")) eqn:Hd; cbn in Hout;
    try discriminate.
  - injection Hout as <-. destruct (data !! str "lineItems"); cbn; auto.
  - cbn [zparse] in Hout.
    destruct (mapM (zparse LineItemSchema) items) as [items'|]; [|done].
    injection Hout as <-. cbn. auto.
Qed.

Lemma candidates_validated call count idx batches cs :
  candidates call count idx batches = Ok cs → Forall validated cs.
Proof.
  revert idx cs. induction batches as [|batch rest IH]; intros idx cs; cbn.
  - intros [= <-]. constructor.
  - destruct (fetch_candidate call count idx batch) as [c|] eqn:Hc; [|done].
    rewrite bind_Ok.
    destruct (candidates call count (S idx) rest) as [cs'|] eqn:Hrest; [|done].
    rewrite bind_Ok. intros [= <-]. constructor; [|by eapply IH].
    unfold fetch_candidate in Hc.
    destruct (call (idx + 1)%nat count batch) as [content|]; [|done].
    rewrite bind_Ok in Hc.
    destruct (parse_model_output content) as [parsed|]; [|done].
    rewrite bind_Ok in Hc. by exists parsed.
Qed.

(** ** The merge policy *)



(** The example of the specification: a vendor left open by the first
    batch is taken from the second, and a third batch does not replace it. *)
Example vendor_first_non_null :
  ∃ merged,
    process_batches example_model 3 0 initial_merged example_batches = Ok merged
    ∧ vendor merged = VStr (str "Acme")
    ∧ date merged = VNull.
Proof. eexists. split; [vm_compute; reflexivity|]. split; reflexivity. Qed.

Lemma length_concat_fmap {A B} (f : A → list B) (l : list A) :
  length (concat (f <$> l)) = sum_list_with (λ x, length (f x)) l.
Proof. induction l as [|x l IH]; cbn; [done|]. by rewrite length_app, IH. Qed.

(** C8. For the candidate records [cs] that the batches yield in batch
    order, the loop ends with a merged record whose line items are the
    concatenation, in batch order, of the candidates' line items; its
    length is the sum of their counts; a candidate's [lineItems] is either
    missing, and then it adds nothing, or an array, and then it adds that
    array's items. *)
Theorem line_items_concatenate
    (call : nat → nat → list base64 → result jsstring)
    (count : nat) (batches : list (list base64)) (cs : list obj) :
  candidates call count 0 batches = Ok cs →
  ∃ merged,
    process_batches call count 0 initial_merged batches = Ok merged
    ∧ lineItems merged = concat (candidate_items <$> cs)
    ∧ length (lineItems merged)
      = sum_list_with (λ c, length (candidate_items c)) cs
    ∧ Forall (λ c, (get c (str "lineItems") = VUndefined ∧ candidate_items c = [])
                   ∨ get c (str "lineItems") = VArr (candidate_items c)) cs.
Proof.
  intros Hcs. pose proof (candidates_length _ _ _ _ _ Hcs) as Hlen.
  exists (merge_all initial_merged (zip cs batches)).
  assert (Hitems : lineItems (merge_all initial_merged (zip cs batches))
                   = concat (candidate_items <$> cs)).
  { by rewrite merge_all_lineItems, zip_fst_candidates. }
  split; [by rewrite process_batches_candidates, Hcs|].
  split; [done|]. split; [by rewrite Hitems, length_concat_fmap|].
  eapply Forall_impl; [by eapply candidates_validated|].
  intros c [Hu|Ha]%validated_lineItems; [left|by right].
  split; [done|]. unfold candidate_items. by rewrite Hu.
Qed.

Lemma line_items_concatenate_witness :
  ∃ merged,
    process_batches example_model 3 0 initial_merged example_batches = Ok merged
    ∧ lineItems merged = concat (candidate_items <$> example_candidates)
    ∧ length (lineItems merged)
      = sum_list_with (λ c, length (candidate_items c)) example_candidates
    ∧ Forall (λ c, (get c (str "lineItems") = VUndefined ∧ candidate_items c = [])
                   ∨ get c (str "lineItems") = VArr (candidate_items c))
        example_candidates.
Proof.
  apply (line_items_concatenate example_model 3 example_batches example_candidates).
  vm_compute. reflexivity.
Defined.

(** The example of the specification: one line item, then two, give three
    items in that order. *)
Example three_line_items :
  ∃ merged,
    process_batches example_model 3 0 initial_merged example_batches = Ok merged
    ∧ lineItems merged
      = [ VObj {[ str "description" := VStr (str "a") ]};
          VObj {[ str "description" := VStr (str "b") ]};
          VObj {[ str "description" := VStr (str "c") ]} ].
Proof. eexists. split; vm_compute; reflexivity. Qed.

(** ** The loop as a fold *)

Lemma spec_scalar_first_wins current candidate :
  spec_scalar current candidate = first_wins current candidate.
Proof.
  unfold spec_scalar, first_wins.
  by destruct (loose_null current), (loose_null candidate).
Qed.

Lemma merge_batch_spec merged result batch :
  merge_batch merged result batch = spec_merge merged (result, length batch).
Proof.
  apply Merged_ext.
  - intros key. rewrite merge_batch_get, <- spec_scalar_first_wins.
    by destruct key.
  - by rewrite merge_batch_lineItems.
  - pose proof (merge_batch_pages merged result batch) as Hp.
    destruct (meta (merge_batch merged result batch)). cbn in *. by rewrite Hp.
Qed.

Lemma merge_all_spec merged cs batches :
  merge_all merged (zip cs batches)
  = fold_left spec_merge (zip cs (length <$> batches)) merged.
Proof.
  revert merged batches.
  induction cs as [|c cs IH]; intros merged [|batch batches]; try done.
  cbn. fold (merge_all (merge_batch merged c batch) (zip cs batches)).
  by rewrite IH, merge_batch_spec.
Qed.

(** C9. For the candidate records [cs] that the batches yield in batch
    order, the loop over the batches, which updates [merged] in place, ends
    with the record that the pure left fold of [spec_merge]
    (first-non-null-wins on scalars, concatenation of line items, sum of
    batch sizes) computes from the all-null, empty, zero record over the
    candidates paired with their batch sizes.  So the result depends on the
    candidates and the batch sizes only: another run with the same
    candidates and sizes ends with the same record. *)
Theorem merge_loop_is_fold
    (call : nat → nat → list base64 → result jsstring)
    (count : nat) (batches : list (list base64)) (cs : list obj) :
  candidates call count 0 batches = Ok cs →
  process_batches call count 0 initial_merged batches
  = Ok (fold_left spec_merge (zip cs (length <$> batches)) spec_initial)
  ∧ ∀ call' count' batches',
      candidates call' count' 0 batches' = Ok cs →
      length <$> batches' = length <$> batches →
      process_batches call' count' 0 initial_merged batches'
      = process_batches call count 0 initial_merged batches.
Proof.
  intros Hcs.
  assert (Hfold : ∀ call' count' batches',
            candidates call' count' 0 batches' = Ok cs →
            process_batches call' count' 0 initial_merged batches'
            = Ok (fold_left spec_merge (zip cs (length <$> batches')) spec_initial)).
  { intros call' count' batches' Hcs'.
    by rewrite process_batches_candidates, Hcs', bind_Ok, merge_all_spec. }
  split; [by apply Hfold|].
  intros call' count' batches' Hcs' Hsizes.
  by rewrite (Hfold _ _ _ Hcs'), (Hfold _ _ _ Hcs), Hsizes.
Qed.

Lemma merge_loop_is_fold_witness :
  process_batches example_model 3 0 initial_merged example_batches
  = Ok (fold_left spec_merge (zip example_candidates (length <$> example_batches))
          spec_initial)
  ∧ ∀ call' count' batches',
      candidates call' count' 0 batches' = Ok example_candidates →
      length <$> batches' = length <$> example_batches →
      process_batches call' count' 0 initial_merged batches'
      = process_batches example_model 3 0 initial_merged example_batches.
Proof.
  apply (merge_loop_is_fold example_model 3 example_batches example_candidates).
  vm_compute. reflexivity.
Defined.

(** ** Model output *)

Lemma indexOf_from_spec c text i :
  ((c ∉ text) ∧ indexOf_from c text i = (-1)%Z)
  ∨ ∃ k, first_at c text k ∧ indexOf_from c text i = (i + Z.of_nat k)%Z.
Proof.
  revert i. induction text as [|x text IH]; intros i; cbn.
  - left. split; [apply not_elem_of_nil|done].
  - destruct (N.eqb_spec x c) as [->|Hne].
    + right. exists 0%nat. split; [|lia].
      split; [done|]. intros j Hj. lia.
    + destruct (IH (i + 1)%Z) as [[Hnin Heq]|(k & [Hk Hfirst] & Heq)].
      * left. split; [|done]. apply not_elem_of_cons. split; [done|done].
      * right. exists (S k). split; [|lia]. split; [done|].
        intros [|j] Hj; cbn; [congruence|]. apply Hfirst. lia.
Qed.

Lemma lastIndexOf_from_spec c text i last :
  ((c ∉ text) ∧ lastIndexOf_from c text i last = last)
  ∨ ∃ k, last_at c text k ∧ lastIndexOf_from c text i last = (i + Z.of_nat k)%Z.
Proof.
  revert i last. induction text as [|x text IH]; intros i last; cbn.
  - left. split; [apply not_elem_of_nil|done].
  - destruct (IH (i + 1)%Z (if x =? c then i else last))
      as [[Hnin Heq]|(k & [Hk Hlast] & Heq)].
    + destruct (N.eqb_spec x c) as [->|Hne].
      * right. exists 0%nat. split; [|lia]. split; [done|].
        intros [|j] Hj; [lia|]. cbn. intros Hj'.
        apply Hnin. by eapply list_elem_of_lookup_2.
      * left. split; [|done]. by apply not_elem_of_cons.
    + right. exists (S k). split; [|lia]. split; [done|].
      intros [|j] Hj; [lia|]. cbn. apply Hlast. lia.
Qed.

Lemma first_at_unique c text i j : first_at c text i → first_at c text j → i = j.
Proof.
  intros [Hi Hi'] [Hj Hj'].
  destruct (lt_eq_lt_dec i j) as [[Hlt| ->]|Hlt]; [|done|].
  - by destruct (Hj' i Hlt).
  - by destruct (Hi' j Hlt).
Qed.

Lemma last_at_unique c text i j : last_at c text i → last_at c text j → i = j.
Proof.
  intros [Hi Hi'] [Hj Hj'].
  destruct (lt_eq_lt_dec i j) as [[Hlt| ->]|Hlt]; [|done|].
  - by destruct (Hi' j Hlt).
  - by destruct (Hj' i Hlt).
Qed.

Lemma at_elem_of c (text : jsstring) i : text !! i = Some c → c ∈ text.
Proof. apply list_elem_of_lookup_2. Qed.

Lemma slice_substring (text : jsstring) (s e : nat) :
  (s ≤ e)%nat →
  slice text (Z.of_nat s) (Z.of_nat e + 1) = substring text s e.
Proof.
  intros Hle.
  replace (Z.of_nat e + 1)%Z with (Z.of_nat (e + 1)) by lia.
  rewrite slice_nat. unfold substring. f_equal. lia.
Qed.

(** The fallback of lines 211 to 217, by the positions of the braces. *)
Lemma fallback_cases content :
  let fallback :=
    let start := indexOf 123 content in
    let end_ := lastIndexOf 125 content in
    if negb (start =? -1)%Z && negb (end_ =? -1)%Z && (end_ >? start)%Z
    then JSON_parse (slice content start (end_ + 1))
    else Throw (Error (str "Model did not return valid JSON.")) in
  (∃ s e, brace_pair content s e
          ∧ fallback = JSON_parse (substring content s e))
  ∨ ((∀ s e, ¬ brace_pair content s e)
     ∧ fallback = Throw (Error (str "Model did not return valid JSON."))).
Proof.
  cbv zeta. unfold indexOf, lastIndexOf.
  destruct (indexOf_from_spec 123 content 0)
    as [[Hnin ->]|(s & Hs & ->)].
  - right. split; [|done]. intros s e [[Hs _] _]. by apply at_elem_of in Hs.
  - destruct (lastIndexOf_from_spec 125 content 0 (-1))
      as [[Hnin ->]|(e & He & ->)].
    + right. split.
      * intros s' e' (_ & [He' _] & _). by apply at_elem_of in He'.
      * by rewrite andb_false_r.
    + destruct (Z.eqb_spec (0 + Z.of_nat s) (-1)); [lia|].
      destruct (Z.eqb_spec (0 + Z.of_nat e) (-1)); [lia|].
      cbn [negb andb].
      destruct (Z.gtb_spec (0 + Z.of_nat e) (0 + Z.of_nat s)) as [Hgt|Hle].
      * left. exists s, e. split; [split; [done|split; [done|lia]]|].
        rewrite !Z.add_0_l. rewrite slice_substring by lia. done.
      * right. split; [|done]. intros s' e' (Hs' & He' & Hlt).
        rewrite (first_at_unique _ _ _ _ Hs' Hs) in Hlt.
        rewrite (last_at_unique _ _ _ _ He' He) in Hlt. lia.
Qed.

Lemma brace_pair_unique content s e s' e' :
  brace_pair content s e → brace_pair content s' e' → s = s' ∧ e = e'.
Proof.
  intros (Hs & He & _) (Hs' & He' & _).
  split; [by eapply first_at_unique|by eapply last_at_unique].
Qed.

(** Lines 206 to 218, case by case.  For every text of the model: when the
    text is JSON, its value is used; otherwise, when a first opening brace
    at [s] and a last closing brace at [e > s] exist, the text from [s] to
    [e] is parsed, its value is used when it is JSON, and the [SyntaxError]
    of the parser is thrown when it is not; otherwise the error "Model did
    not return valid JSON." is thrown.  Nothing else is tried: [recovery]
    has no other outcome, and the outcome is the only one it allows. *)
Lemma model_output_recovery (content : jsstring) :
  recovery content (parse_model_output content)
  ∧ ∀ r, recovery content r → r = parse_model_output content.
Proof.
  assert (Hout : parse_model_output content
                 = match JSON.parse content with
                   | Some v => Ok v
                   | None =>
                       let start := indexOf 123 content in
                       let end_ := lastIndexOf 125 content in
                       if negb (start =? -1)%Z && negb (end_ =? -1)%Z
                          && (end_ >? start)%Z
                       then JSON_parse (slice content start (end_ + 1))
                       else Throw (Error (str "Model did not return valid JSON."))
                   end).
  { unfold parse_model_output, try_catch. unfold JSON_parse at 1.
    by destruct (JSON.parse content). }
  rewrite Hout. clear Hout.
  destruct (JSON.parse content) as [v|] eqn:Hparse.
  - split; [by constructor|]. intros r Hr. inversion Hr; congruence.
  - destruct (fallback_cases content) as [(s & e & Hpair & ->)|[Hnone ->]].
    + split; [by econstructor|]. intros r Hr.
      inversion Hr as [| s' e' _ Hpair' | _ Hnone].
      * congruence.
      * by destruct (brace_pair_unique _ _ _ _ _ Hpair Hpair') as [-> ->].
      * by destruct (Hnone s e).
    + split; [by constructor|]. intros r Hr.
      inversion Hr as [| s' e' _ Hpair' |].
      * congruence.
      * by destruct (Hnone s' e').
      * done.
Qed.

(** The outcome the specification names is not the one of the code for the
    text [{oops}]. *)
Lemma model_output_recovery_counterexample :
  ¬ recovery_as_specified (lit "{oops}") (parse_model_output (lit "{oops}")).
Proof.
  assert (Hout : parse_model_output (lit "{oops}") = Throw SyntaxError)
    by (vm_compute; reflexivity).
  rewrite Hout. intros H. inversion H.
Qed.

(** An error of the parse step ends the loop, and the request, with that
    error. *)
Lemma parse_error_ends_loop call count idx merged batch rest content e :
  call (idx + 1)%nat count batch = Ok content →
  parse_model_output content = Throw e →
  process_batches call count idx merged (batch :: rest) = Throw e.
Proof. intros Hcall Hparse. cbn [process_batches]. by rewrite Hcall, bind_Ok, Hparse. Qed.

(** The second [JSON.parse], of line 214, has no guard of its own: whenever
    the text between the braces is not JSON, its [SyntaxError] is what the
    loop ends with. *)
Lemma brace_text_not_json call count idx merged batch rest content s e :
  call (idx + 1)%nat count batch = Ok content →
  JSON.parse content = None →
  brace_pair content s e →
  JSON.parse (substring content s e) = None →
  parse_model_output content = Throw SyntaxError
  ∧ process_batches call count idx merged (batch :: rest) = Throw SyntaxError.
Proof.
  intros Hcall Hnone Hpair Hsub.
  assert (Hout : parse_model_output content = Throw SyntaxError).
  { assert (Hfb : parse_model_output content
                  = let start := indexOf 123 content in
                    let end_ := lastIndexOf 125 content in
                    if negb (start =? -1)%Z && negb (end_ =? -1)%Z
                       && (end_ >? start)%Z
                    then JSON_parse (slice content start (end_ + 1))
                    else Throw (Error (str "Model did not return valid JSON."))).
    { unfold parse_model_output, try_catch. unfold JSON_parse at 1.
      by rewrite Hnone. }
    rewrite Hfb.
    destruct (fallback_cases content) as [(s' & e' & Hpair' & ->)|[Hno _]].
    - destruct (brace_pair_unique _ _ _ _ _ Hpair Hpair') as [<- <-].
      unfold JSON_parse. by rewrite Hsub.
    - by destruct (Hno _ _ Hpair). }
  split; [done|]. by eapply parse_error_ends_loop.
Qed.

(** C5 does not hold of the code: text that is still not JSON after the
    braces were cut out does not end the request with the error "Model did
    not return valid JSON.".  For the answer [{oops}] to a one-page PDF:
    the text is not JSON, its first opening brace is at 0 and its last
    closing brace at 5, the text between them is the text itself and is not
    JSON either; the unguarded [JSON.parse] of line 214 throws, and the
    request ends with the 500 response of that [SyntaxError].  The error of
    line 216 is what an answer without braces gets. *)
Theorem unguarded_reparse_throws_syntax_error :
  JSON.parse (lit "{oops}") = None
  ∧ indexOf 123 (lit "{oops}") = 0%Z
  ∧ lastIndexOf 125 (lit "{oops}") = 5%Z
  ∧ slice (lit "{oops}") 0 (5 + 1) = lit "{oops}"
  ∧ parse_model_output (lit "{oops}") = Throw SyntaxError
  ∧ extract (example_converter 1) (λ _ _ _, Ok (lit "{oops}"))
      (Some (str "invoice.pdf"))
    = Failure SyntaxError
  ∧ extract (example_converter 1) (λ _ _ _, Ok (lit "no braces"))
      (Some (str "invoice.pdf"))
    = Failure (Error (str "Model did not return valid JSON.")).
Proof. repeat split; vm_compute; reflexivity. Qed.

(** The example of the specification. *)
Example recovered_by_braces :
  parse_model_output (lit "here is the json: {'total':'100'} thanks")
  = Ok (VObj {[ str "total" := VStr (str "100") ]}).
Proof. vm_compute. reflexivity. Qed.

(** ** The final validation *)

Lemma ExtractedDataSchema_shape :
  ExtractedDataSchema
  = z_object
      [ (str "documentType", z_optional z_string);
        (str "invoiceNumber", z_optional z_string);
        (str "date", z_optional z_string);
        (str "vendor", z_optional z_string);
        (str "buyer", z_optional z_string);
        (str "total", z_optional z_string);
        (str "currency", z_optional z_string);
        (str "lineItems", z_optional (z_array LineItemSchema));
        (str "meta", z_optional MetaSchema) ].
Proof. done. Qed.

Lemma merged_value_scalar merged key :
  ∃ data, merged_value merged = VObj data
          ∧ data !! key_name key = Some (merged_get merged key)
          ∧ data !! str "meta"
            = Some (VObj {[ str "pagesProcessed"
                             := VNum (pagesProcessed (meta merged)) 0 ]}).
Proof.
  eexists. split; [reflexivity|]. split; [|vm_compute; reflexivity].
  destruct key; vm_compute; reflexivity.
Qed.

(** The validated record carries the page counter of the merged record. *)
Lemma final_meta merged final :
  parse_object ExtractedDataSchema (merged_value merged) = Ok final →
  final !! str "meta"
  = Some (VObj {[ str "pagesProcessed" := VNum (pagesProcessed (meta merged)) 0 ]}).
Proof.
  rewrite ExtractedDataSchema_shape. intros Hfinal.
  apply parse_object_Ok in Hfinal as (data & Hdata & Hf).
  destruct (merged_value_scalar merged Kvendor) as (data' & Hdata' & _ & Hmeta).
  rewrite Hdata' in Hdata. injection Hdata as <-.
  eapply (object_fields_key _ _ _ _ (str "meta") (z_optional MetaSchema)) in Hf
    as (out & Hout & Hlook); [|shape_nodup|shape_elem].
  unfold get in Hout. rewrite Hmeta in Hout, Hlook. cbn [default] in Hout.
  assert (out = VObj {[ str "pagesProcessed"
                          := VNum (pagesProcessed (meta merged)) 0 ]}) as ->.
  { vm_compute in Hout. injection Hout as <-. vm_compute. reflexivity. }
  exact Hlook.
Qed.

(** A scalar that is still [null] makes the final validation fail. *)
Lemma final_rejects_null merged key :
  merged_get merged key = VNull →
  parse_object ExtractedDataSchema (merged_value merged) = Throw ZodError.
Proof.
  intros Hnull.
  destruct (parse_object ExtractedDataSchema (merged_value merged))
    as [final|e] eqn:Hfinal.
  - exfalso. rewrite ExtractedDataSchema_shape in Hfinal.
    apply parse_object_Ok in Hfinal as (data & Hdata & Hf).
    destruct (merged_value_scalar merged key) as (data' & Hdata' & Hkey & _).
    rewrite Hdata' in Hdata. injection Hdata as <-.
    eapply (object_fields_key _ _ _ _ (key_name key) (z_optional z_string)) in Hf
      as (out & Hout & _); [|shape_nodup|destruct key; shape_elem].
    unfold get in Hout. rewrite Hkey, Hnull in Hout. discriminate.
  - unfold parse_object in Hfinal.
    destruct (zparse ExtractedDataSchema (merged_value merged)) as [[]|];
      congruence.
Qed.

(** So does a [null] scalar in the model's answer fail the validation of
    its batch. *)
Lemma partial_rejects_null data key :
  data !! key_name key = Some VNull →
  parse_object (partial ExtractedDataSchema) (VObj data) = Throw ZodError.
Proof.
  intros Hnull.
  destruct (parse_object (partial ExtractedDataSchema) (VObj data))
    as [c|e] eqn:Hc.
  - exfalso. rewrite partial_ExtractedDataSchema in Hc.
    apply parse_object_Ok in Hc as (data' & [= <-] & Hf).
    eapply (object_fields_key _ _ _ _ (key_name key)
              (z_optional (z_optional z_string))) in Hf
      as (out & Hout & _); [|shape_nodup|destruct key; shape_elem].
    unfold get in Hout. rewrite Hnull in Hout. discriminate.
  - unfold parse_object in Hc.
    destruct (zparse (partial ExtractedDataSchema) (VObj data)) as [[]|];
      congruence.
Qed.

(** A scalar that no candidate supplies ends the request with the 500
    response, although every batch passed its validation. *)
Lemma missing_scalar_fails_request pdfToPicFromPath call pdfPath cs key :
  let pages := pdfToBase64Pages pdfToPicFromPath pdfPath in
  let batches := make_batches pages in
  pages ≠ [] →
  candidates call (length batches) 0 batches = Ok cs →
  first_non_null VNull (key_name key) cs = VNull →
  extract pdfToPicFromPath call (Some pdfPath) = Failure ZodError.
Proof.
  intros pages batches Hpages Hcs Hnone. unfold extract, extract_body.
  fold pages. fold batches.
  destruct pages as [|p pages'] eqn:Hp; [done|]. cbn [length Nat.eqb].
  rewrite process_batches_candidates, Hcs, !bind_Ok.
  rewrite (final_rejects_null _ key); [done|].
  rewrite merge_all_get, zip_fst_candidates by (by eapply candidates_length).
  destruct key; exact Hnone.
Qed.

(** C2 does not hold of the code: a scalar field that is [null] fails the
    validation of its batch.  For the answer [{"vendor": null}] to a
    one-page PDF: the text parses, its only field is a scalar field holding
    [null], the validation of the batch throws, and the request ends with
    the 500 response of that [ZodError]. *)
Theorem null_scalar_fails_validation :
  parse_model_output (lit "{'vendor': null}")
  = Ok (VObj {[ str "vendor" := VNull ]})
  ∧ parse_object (partial ExtractedDataSchema) (VObj {[ str "vendor" := VNull ]})
    = Throw ZodError
  ∧ extract (example_converter 1) (λ _ _ _, Ok (lit "{'vendor': null}"))
      (Some (str "invoice.pdf"))
    = Failure ZodError.
Proof. repeat split; vm_compute; reflexivity. Qed.

(** C3 does not hold of the code: a scalar field that no batch supplied
    fails the final validation.  For the answer [{}] to a one-page PDF: the
    validation of the only batch succeeds and the loop ends with a merged
    record whose scalars are all [null]; the final validation of that
    record throws, and the request ends with the 500 response of that
    [ZodError] instead of the success response. *)
Theorem null_merged_fails_final_validation :
  let call : nat → nat → list base64 → result jsstring := λ _ _ _, Ok (lit "{}") in
  let pages := pdfToBase64Pages (example_converter 1) (str "invoice.pdf") in
  length pages = 1%nat
  ∧ candidates call 1 0 (make_batches pages) = Ok [∅]
  ∧ process_batches call 1 0 initial_merged (make_batches pages)
    = Ok (set_meta initial_merged {| pagesProcessed := 1 |})
  ∧ parse_object ExtractedDataSchema
      (merged_value (set_meta initial_merged {| pagesProcessed := 1 |}))
    = Throw ZodError
  ∧ extract (example_converter 1) call (Some (str "invoice.pdf"))
    = Failure ZodError.
Proof. repeat split; vm_compute; reflexivity. Qed.

(** ** The handler *)

Lemma sum_list_with_length_concat {A} (l : list (list A)) :
  sum_list_with length l = length (concat l).
Proof. induction l as [|x l IH]; cbn; [done|]. by rewrite length_app, IH. Qed.

(** C6. When the renderer gives no page, the request ends with the 500
    response [{ ok: false, error: "Could not render any pages from PDF." }],
    whatever the model would answer, and with no success response. *)
Theorem zero_pages_is_an_error
    (pdfToPicFromPath : jsstring → nat → result (option base64))
    (call : nat → nat → list base64 → result jsstring) (pdfPath : jsstring) :
  pdfToBase64Pages pdfToPicFromPath pdfPath = [] →
  let response := extract pdfToPicFromPath call (Some pdfPath) in
  response = Failure (Error (str "Could not render any pages from PDF."))
  ∧ status response = 500%nat
  ∧ failure_text (Error (str "Could not render any pages from PDF."))
    = Some (str "Could not render any pages from PDF.")
  ∧ ∀ pages data, response ≠ Success pages data.
Proof.
  intros Hpages response.
  assert (Hr : response
               = Failure (Error (str "Could not render any pages from PDF."))).
  { subst response. unfold extract, extract_body. by rewrite Hpages. }
  rewrite Hr. repeat split; try done.
Qed.

Lemma zero_pages_is_an_error_witness :
  let response :=
    extract (example_converter 0) example_full_model (Some (str "empty.pdf")) in
  response = Failure (Error (str "Could not render any pages from PDF."))
  ∧ status response = 500%nat
  ∧ failure_text (Error (str "Could not render any pages from PDF."))
    = Some (str "Could not render any pages from PDF.")
  ∧ ∀ pages data, response ≠ Success pages data.
Proof.
  apply (zero_pages_is_an_error (example_converter 0) example_full_model
           (str "empty.pdf")).
  vm_compute. reflexivity.
Defined.

(** C7. When the loop over the batches of the rendered pages ends, the
    page counter of the merged record is the sum of the sizes of the
    batches, which is the number N of rendered pages, whatever the model
    reported; and a success response has N as its [pages] and carries that
    counter in its [data]. *)
Theorem pages_processed_counts_pages
    (pdfToPicFromPath : jsstring → nat → result (option base64))
    (call : nat → nat → list base64 → result jsstring) (pdfPath : jsstring)
    (merged : Merged) :
  let rendered := pdfToBase64Pages pdfToPicFromPath pdfPath in
  let batches := make_batches rendered in
  process_batches call (length batches) 0 initial_merged batches = Ok merged →
  pagesProcessed (meta merged) = Z.of_nat (sum_list_with length batches)
  ∧ sum_list_with length batches = length rendered
  ∧ ∀ pages data,
      extract pdfToPicFromPath call (Some pdfPath) = Success pages data →
      pages = length rendered
      ∧ ∃ final,
          data = VObj final
          ∧ final !! str "meta"
            = Some (VObj {[ str "pagesProcessed"
                             := VNum (Z.of_nat (length rendered)) 0 ]}).
Proof.
  intros rendered batches Hloop.
  assert (Hsum : sum_list_with length batches = length rendered).
  { rewrite sum_list_with_length_concat. subst batches.
    by rewrite make_batches_concat. }
  assert (Hpages : pagesProcessed (meta merged)
                   = Z.of_nat (sum_list_with length batches)).
  { rewrite process_batches_candidates in Hloop.
    destruct (candidates call (length batches) 0 batches) as [cs|] eqn:Hcs; [|done].
    rewrite bind_Ok in Hloop. injection Hloop as <-.
    rewrite merge_all_pages, zip_snd_batches
      by (by eapply candidates_length).
    by rewrite sum_list_with_length_concat. }
  split; [done|]. split; [done|].
  intros pages data Hok. unfold extract, extract_body in Hok.
  fold rendered in Hok. fold batches in Hok.
  destruct (length rendered =? 0)%nat; [done|].
  rewrite Hloop, bind_Ok in Hok.
  destruct (parse_object ExtractedDataSchema (merged_value merged))
    as [final|] eqn:Hfinal; [|done].
  rewrite bind_Ok in Hok. injection Hok as <- <-.
  split; [done|]. exists final. split; [done|].
  rewrite (final_meta _ _ Hfinal). by rewrite Hpages, Hsum.
Qed.

Lemma pages_processed_counts_pages_witness :
  extract (example_converter 7) example_full_model (Some (str "invoice.pdf"))
  = Success 7 example_data
  ∧ let rendered := pdfToBase64Pages (example_converter 7) (str "invoice.pdf") in
    let batches := make_batches rendered in
    pagesProcessed (meta example_merged) = Z.of_nat (sum_list_with length batches)
    ∧ sum_list_with length batches = length rendered
    ∧ ∀ pages data,
        extract (example_converter 7) example_full_model (Some (str "invoice.pdf"))
        = Success pages data →
        pages = length rendered
        ∧ ∃ final,
            data = VObj final
            ∧ final !! str "meta"
              = Some (VObj {[ str "pagesProcessed"
                               := VNum (Z.of_nat (length rendered)) 0 ]}).
Proof.
  split; [vm_compute; reflexivity|].
  apply (pages_processed_counts_pages (example_converter 7) example_full_model
           (str "invoice.pdf") example_merged).
  vm_compute. reflexivity.
Defined.

(** The end-to-end examples of the specification: two pages make one batch,
    ten pages make two, of sizes 6 and 4. *)
Example batches_of_two_and_ten_pages :
  length <$> make_batches (pdfToBase64Pages (example_converter 2) (str "a.pdf"))
  = [2%nat]
  ∧ length <$> make_batches (pdfToBase64Pages (example_converter 10) (str "a.pdf"))
    = [6%nat; 4%nat].
Proof. split; vm_compute; reflexivity. Qed.

(** ** Unknown keys *)

Lemma object_fields_ext check data1 data2 sh :
  (∀ key, key ∈ sh.*1 → data1 !! key = data2 !! key) →
  object_fields check data1 sh = object_fields check data2 sh.
Proof.
  induction sh as [|[k fld] sh IH]; [done|].
  intros Hsame. cbn. unfold get.
  rewrite (Hsame k) by (cbn; apply list_elem_of_here).
  rewrite IH; [done|].
  intros key Hin. apply Hsame. cbn. by apply list_elem_of_further.
Qed.

(** C10. When the properties of a parsed object that the schema declares
    pass the validation of a batch, the whole object passes it too, with
    the same record, whatever other properties it carries; and the record
    has no property the schema does not declare. *)
Theorem unknown_keys_are_stripped (data : obj) (c : obj) :
  let declared := shape_keys (partial ExtractedDataSchema) in
  parse_object (partial ExtractedDataSchema)
    (VObj (filter (λ kv, kv.1 ∈ declared) data)) = Ok c →
  parse_object (partial ExtractedDataSchema) (VObj data) = Ok c
  ∧ ∀ key, key ∉ declared → c !! key = None.
Proof.
  intros declared Hc. subst declared.
  rewrite partial_ExtractedDataSchema in *. cbn [shape_keys].
  apply parse_object_Ok in Hc as (data' & [= <-] & Hf).
  split.
  - apply parse_object_Ok. eexists. split; [done|]. rewrite <- Hf.
    apply object_fields_ext. intros key Hin.
    symmetry. destruct (data !! key) as [v|] eqn:Hkey.
    + by apply map_lookup_filter_Some.
    + apply map_lookup_filter_None. left. done.
  - intros key Hnin. by eapply object_fields_other.
Qed.

Lemma unknown_keys_are_stripped_witness :
  parse_object (partial ExtractedDataSchema) (VObj example_extra)
  = Ok {[ str "vendor" := VStr (str "Acme") ]}
  ∧ ∀ key, key ∉ shape_keys (partial ExtractedDataSchema) →
           ({[ str "vendor" := VStr (str "Acme") ]} : obj) !! key = None.
Proof.
  apply (unknown_keys_are_stripped example_extra
           {[ str "vendor" := VStr (str "Acme") ]}).
  vm_compute. reflexivity.
Defined.

(** The same on the text of an answer. *)
Example extra_keys_in_answer :
  parse_model_output (lit "{'vendor':'Acme','confidence':0.9,'notes':['blurry scan']}")
  = Ok (VObj example_extra).
Proof. vm_compute. reflexivity. Qed.

(** * Further properties *)

(** ** The page renderer *)

Section Renderer.

Variable pdfToPicFromPath : jsstring → nat → result (option base64).
Variable pdfPath : jsstring.

Lemma render_loop_app n page acc :
  render_loop pdfToPicFromPath pdfPath n page acc
  = acc ++ render_loop pdfToPicFromPath pdfPath n page [].
Proof.
  revert page acc. induction n as [|n IH]; intros page acc; cbn.
  - by rewrite app_nil_r.
  - destruct (pdfToPicFromPath pdfPath page) as [[[|c b]|]|];
      rewrite ?app_nil_r; try done.
    rewrite (IH _ (acc ++ _)), (IH _ [_]). by rewrite app_assoc.
Qed.

Lemma render_loop_length n page :
  (length (render_loop pdfToPicFromPath pdfPath n page []) ≤ n)%nat.
Proof.
  revert page. induction n as [|n IH]; intros page; cbn; [done|].
  destruct (pdfToPicFromPath pdfPath page) as [[[|c b]|]|]; cbn; try lia.
  rewrite render_loop_app, length_app. cbn. specialize (IH (S page)). lia.
Qed.

Lemma render_loop_lookup n page i b :
  render_loop pdfToPicFromPath pdfPath n page [] !! i = Some b →
  rendered (pdfToPicFromPath pdfPath (page + i)) = Some b.
Proof.
  revert page i. induction n as [|n IH]; intros page i; cbn; [done|].
  destruct (pdfToPicFromPath pdfPath page) as [[[|c b']|]|] eqn:Hpage; try done.
  rewrite render_loop_app. destruct i as [|i]; cbn.
  - intros [= <-]. by rewrite Nat.add_0_r, Hpage.
  - intros H%IH. by replace (page + S i)%nat with (S page + i)%nat by lia.
Qed.

Lemma render_loop_stop n page :
  let pages := render_loop pdfToPicFromPath pdfPath n page [] in
  (length pages < n)%nat →
  rendered (pdfToPicFromPath pdfPath (page + length pages)) = None.
Proof.
  revert page. induction n as [|n IH]; intros page; cbn; [lia|].
  destruct (pdfToPicFromPath pdfPath page) as [[[|c b']|]|] eqn:Hpage; cbn;
    try (by rewrite Nat.add_0_r, Hpage).
  rewrite render_loop_app, length_app. cbn. intros Hlt.
  replace (page + S (length (render_loop pdfToPicFromPath pdfPath n (S page) [])))%nat
    with (S page + length (render_loop pdfToPicFromPath pdfPath n (S page) []))%nat
    by lia.
  apply IH. lia.
Qed.

(** X1. The renderer reads pages 1, 2, ... and keeps the images of the
    longest run of pages that render: page [i + 1] gave the [i]-th image,
    and unless 9999 images were read the page after the last one did not
    render (the converter threw, or gave no or an empty image).  It never
    returns more than 9999 images. *)
Theorem renderer_longest_prefix :
  let pages := pdfToBase64Pages pdfToPicFromPath pdfPath in
  (Z.of_nat (length pages) ≤ 9999)%Z
  ∧ (∀ i b, pages !! i = Some b →
            rendered (pdfToPicFromPath pdfPath (S i)) = Some b)
  ∧ ((Z.of_nat (length pages) < 9999)%Z →
     rendered (pdfToPicFromPath pdfPath (S (length pages))) = None).
Proof.
  unfold pdfToBase64Pages. split; [|split].
  - pose proof (render_loop_length (Z.to_nat 9999) 1). lia.
  - intros i b H. by apply render_loop_lookup in H.
  - intros Hlt. apply (render_loop_stop (Z.to_nat 9999) 1). lia.
Qed.

End Renderer.

(** X2. When the first page does not render, the request ends with the 500
    response "Could not render any pages from PDF.": whatever the converter
    threw is dropped, and the model is never asked. *)
Theorem unrenderable_first_page
    (pdfToPicFromPath : jsstring → nat → result (option base64))
    (pdfPath : jsstring) :
  rendered (pdfToPicFromPath pdfPath 1%nat) = None →
  pdfToBase64Pages pdfToPicFromPath pdfPath = []
  ∧ ∀ call : nat → nat → list base64 → result jsstring,
      extract pdfToPicFromPath call (Some pdfPath)
      = Failure (Error (str "Could not render any pages from PDF.")).
Proof.
  intros Hfirst.
  assert (Hnone : pdfToBase64Pages pdfToPicFromPath pdfPath = []).
  { destruct (pdfToBase64Pages pdfToPicFromPath pdfPath) as [|b pages] eqn:Hp;
      [done|].
    unfold pdfToBase64Pages in Hp.
    pose proof (render_loop_lookup pdfToPicFromPath pdfPath
                  (Z.to_nat 9999) 1 0 b) as Hl.
    rewrite Hp in Hl. specialize (Hl eq_refl). cbn in Hl. congruence. }
  split; [done|]. intros call. unfold extract, extract_body. by rewrite Hnone.
Qed.

Lemma unrenderable_first_page_witness :
  pdfToBase64Pages (example_converter 0) (str "scan.pdf") = []
  ∧ ∀ call : nat → nat → list base64 → result jsstring,
      extract (example_converter 0) call (Some (str "scan.pdf"))
      = Failure (Error (str "Could not render any pages from PDF.")).
Proof.
  apply (unrenderable_first_page (example_converter 0) (str "scan.pdf")).
  vm_compute. reflexivity.
Defined.

(** ** The batch planner, batch by batch *)

Lemma batch_loop_app fuel (pages : list base64) i batches :
  batch_loop fuel pages i batches = batches ++ batch_loop fuel pages i [].
Proof.
  revert i batches. induction fuel as [|fuel IH]; intros i batches;
    cbn [batch_loop].
  - by rewrite app_nil_r.
  - destruct (i <? length pages)%nat; [|by rewrite app_nil_r].
    rewrite (IH _ (batches ++ _)), (IH _ ([] ++ _)). by rewrite app_assoc.
Qed.

Lemma batch_loop_lookup fuel (pages : list base64) k j b :
  batch_loop fuel pages (BATCH_SIZE * k) [] !! j = Some b →
  b = take BATCH_SIZE (drop (BATCH_SIZE * (k + j)) pages)
  ∧ (BATCH_SIZE * (k + j) < length pages)%nat.
Proof.
  revert k j b.
  induction fuel as [|fuel IH]; intros k j b; cbn [batch_loop]; [done|].
  destruct (Nat.ltb_spec (BATCH_SIZE * k) (length pages)) as [Hlt|]; [|done].
  rewrite batch_loop_app. destruct j as [|j].
  - cbn [app lookup list_lookup]. intros Hb. apply (inj Some) in Hb. subst b.
    rewrite slice_nat, Nat.add_0_r. split; [|done]. f_equal. lia.
  - cbn [app]. change (([?x] ++ ?l) !! S j) with (l !! j).
    replace (BATCH_SIZE * k + BATCH_SIZE)%nat with (BATCH_SIZE * S k)%nat by lia.
    intros H%IH. by replace (k + S j)%nat with (S k + j)%nat by lia.
Qed.

(** X3. The batch of index [i] is the pages [6 * i] to [6 * i + 5] (as
    many of them as exist, at least one), and every batch that has a
    successor has exactly 6 pages: only the last batch can be short. *)
Theorem batches_are_slices (pages : list base64) (i : nat) (b : list base64) :
  make_batches pages !! i = Some b →
  b = take 6 (drop (6 * i) pages)
  ∧ (6 * i < length pages)%nat
  ∧ (is_Some (make_batches pages !! S i) → length b = 6%nat).
Proof.
  unfold make_batches. intros Hb.
  pose proof (batch_loop_lookup (length pages) pages 0 i b) as Hi.
  change (BATCH_SIZE * 0)%nat with 0%nat in Hi.
  destruct (Hi Hb) as [-> Hlt]. unfold BATCH_SIZE in *. cbn [Nat.add] in *.
  split; [done|]. split; [done|]. intros [b' Hb'].
  pose proof (batch_loop_lookup (length pages) pages 0 (S i) b') as Hi'.
  change (BATCH_SIZE * 0)%nat with 0%nat in Hi'.
  destruct (Hi' Hb') as [_ Hlt']. unfold BATCH_SIZE in *. cbn [Nat.add] in *.
  rewrite length_take, length_drop. lia.
Qed.

Lemma batches_are_slices_witness :
  let pages := pdfToBase64Pages (example_converter 10) (str "scan.pdf") in
  take 6 pages = take 6 (drop (6 * 0) pages)
  ∧ (6 * 0 < length pages)%nat
  ∧ (is_Some (make_batches pages !! 1%nat) → length (take 6 pages) = 6%nat).
Proof.
  apply (batches_are_slices
           (pdfToBase64Pages (example_converter 10) (str "scan.pdf")) 0).
  vm_compute. reflexivity.
Defined.

(** ** The schema *)

Lemma schema_ind' (P : schema → Prop) :
  P z_string → P z_number →
  (∀ inner, P inner → P (z_optional inner)) →
  (∀ element, P element → P (z_array element)) →
  (∀ shape, Forall (λ kf, P kf.2) shape → P (z_object shape)) →
  ∀ sc, P sc.
Proof.
  intros Hs Hn Ho Ha Hobj. fix IH 1. intros [| |inner|element|shape].
  - exact Hs.
  - exact Hn.
  - apply Ho, IH.
  - apply Ha, IH.
  - apply Hobj. induction shape as [|[k field] shape IHshape]; constructor.
    + apply IH.
    + exact IHshape.
Qed.

Lemma schema_wf_object shape :
  schema_wf (z_object shape) = true →
  NoDup shape.*1 ∧ Forall (λ kf, schema_wf kf.2 = true) shape.
Proof.
  cbn [schema_wf]. intros [Hnd Hf]%andb_prop. split.
  - by apply bool_decide_eq_true in Hnd.
  - clear Hnd. induction shape as [|[k field] shape IH]; constructor.
    + by apply andb_prop in Hf as [? _].
    + apply IH. by apply andb_prop in Hf as [_ ?].
Qed.

Lemma optional_optional inner v :
  zparse (z_optional (z_optional inner)) v = zparse (z_optional inner) v.
Proof. by destruct v. Qed.

Lemma object_fields_partial data shape :
  Forall (λ kf, ∃ inner, kf.2 = z_optional inner) shape →
  object_fields zparse data ((λ kf, (kf.1, z_optional kf.2)) <$> shape)
  = object_fields zparse data shape.
Proof.
  induction 1 as [|[k field] shape [inner Hopt] _ IH]; [done|].
  cbn in Hopt. subst field. cbn [fmap list_fmap object_fields fst snd].
  change (list_fmap _ _ ?f shape) with (f <$> shape).
  by rewrite IH, optional_optional.
Qed.

Lemma partial_is_redundant_shape (v : value) :
  zparse (partial ExtractedDataSchema) v = zparse ExtractedDataSchema v
  ∧ parse_object (partial ExtractedDataSchema) v
    = parse_object ExtractedDataSchema v.
Proof.
  assert (H : zparse (partial ExtractedDataSchema) v = zparse ExtractedDataSchema v).
  { rewrite partial_ExtractedDataSchema, ExtractedDataSchema_shape.
    destruct v; try done. rewrite !zparse_object. f_equal.
    apply object_fields_partial. repeat constructor; by eexists. }
  split; [done|]. unfold parse_object. by rewrite H.
Qed.

(** X4. [.partial()] changes nothing here: every key of
    [ExtractedDataSchema] is optional already, so the validation of a batch
    and the final validation accept the same values and return the same
    records. *)
Theorem partial_is_redundant (v : value) :
  zparse (partial ExtractedDataSchema) v = zparse ExtractedDataSchema v
  ∧ parse_object (partial ExtractedDataSchema) v
    = parse_object ExtractedDataSchema v.
Proof. apply partial_is_redundant_shape. Qed.

Lemma optional_string_is_Some v :
  is_Some (zparse (z_optional z_string) v) ↔ string_or_absent v.
Proof.
  unfold string_or_absent. destruct v; cbn; split;
    try (intros [? [=]]); try (intros [[=]|[? [=]]]); eauto.
Qed.

Lemma optional_number_is_Some v :
  is_Some (zparse (z_optional z_number) v)
  ↔ v = VUndefined ∨ ∃ n e, v = VNum n e.
Proof.
  destruct v; cbn; split;
    try (intros [? [=]]); try (intros [[=]|(? & ? & [=])]); eauto.
Qed.

Lemma line_item_is_Some item :
  is_Some (zparse LineItemSchema item) ↔ line_item_accepted item.
Proof.
  unfold line_item_accepted, LineItemSchema.
  destruct item as [| | | | | |o].
  1-6: split; [intros [? [=]]|intros (? & [=] & _)].
  rewrite zparse_object, fmap_is_Some, object_fields_is_Some. split.
  - intros Hall. exists o. split; [done|]. intros key Hkey.
    apply optional_string_is_Some.
    rewrite Forall_forall in Hall. unfold line_item_keys in Hkey.
    repeat (apply elem_of_cons in Hkey as [->|Hkey];
            [refine (Hall (_, _) _); shape_elem|]).
    by apply elem_of_nil in Hkey.
  - intros (o' & [= <-] & Hall).
    repeat constructor; cbn [fst snd]; apply optional_string_is_Some, Hall;
      unfold line_item_keys; shape_elem.
Qed.

Lemma line_items_is_Some v :
  is_Some (zparse (z_optional (z_array LineItemSchema)) v)
  ↔ line_items_accepted v.
Proof.
  unfold line_items_accepted.
  destruct v as [| | | | |items|].
  1: cbn; split; eauto.
  1-4,6: cbn; split; [intros [? [=]]|intros [[=]|(? & [=] & _)]].
  cbn [zparse]. rewrite fmap_is_Some, mapM_is_Some. split.
  - intros Hall. right. exists items. split; [done|].
    eapply Forall_impl; [exact Hall|]. intros item. apply line_item_is_Some.
  - intros [[=]|(items' & [= <-] & Hall)].
    eapply Forall_impl; [exact Hall|]. intros item. apply line_item_is_Some.
Qed.
Lemma meta_is_Some v :
  is_Some (zparse (z_optional MetaSchema) v) ↔ meta_accepted v.
Proof.
  unfold meta_accepted, MetaSchema.
  destruct v as [| | | | | |m].
  1: cbn; split; eauto.
  1-5: cbn; split; [intros [? [=]]|intros [[=]|(? & [=] & _)]].
  cbn [zparse]. rewrite fmap_is_Some, object_fields_is_Some. split.
  - intros Hall. right. exists m. split; [done|].
    apply Forall_cons in Hall as [Hpp _]. by apply optional_number_is_Some in Hpp.
  - intros [[=]|(m' & [= <-] & Hpp)].
    constructor; [|constructor]. by apply optional_number_is_Some.
Qed.

(** The largest double, [1.7976931348623157e308], and the literal one digit
    above it are in range; the next one and [1e999] are read as [Infinity]. *)
Example double_finite_bounds :
  double_finite 17976931348623157 292 = true
  ∧ double_finite 17976931348623158 292 = true
  ∧ double_finite 17976931348623159 292 = false
  ∧ double_finite 1 999 = false
  ∧ double_finite (-5) (-1) = true.
Proof. repeat split; vm_compute; reflexivity. Qed.

(** X5. For an answer whose reported page count, if it is a number, is
    within the range of doubles, the validation of a batch succeeds exactly
    when the answer is an object in which each of the seven scalar
    properties is a string or missing, [lineItems] is missing or an array
    of objects whose four properties are strings or missing, and [meta] is
    missing or an object whose [pagesProcessed] is a number or missing.
    Everything else (a [null], a number where a string is expected, a value
    that is not an object) throws.  (A page count beyond the range of
    doubles is read as [Infinity], which zod 3 accepts and zod 4 refuses.) *)
Theorem validation_accepts_exactly (parsed : value) :
  page_count_in_range parsed →
  (∃ c, parse_object (partial ExtractedDataSchema) parsed = Ok c)
  ↔ answer_accepted parsed.
Proof.
  intros _.
  destruct (partial_is_redundant_shape parsed) as [Hz Hp]. rewrite Hp.
  unfold answer_accepted. rewrite ExtractedDataSchema_shape. split.
  - intros [c Hc]. apply parse_object_Ok in Hc as (data & -> & Hf).
    exists data. split; [done|].
    assert (Hall : is_Some (object_fields zparse data
      [ (str "documentType", z_optional z_string);
        (str "invoiceNumber", z_optional z_string);
        (str "date", z_optional z_string);
        (str "vendor", z_optional z_string);
        (str "buyer", z_optional z_string);
        (str "total", z_optional z_string);
        (str "currency", z_optional z_string);
        (str "lineItems", z_optional (z_array LineItemSchema));
        (str "meta", z_optional MetaSchema) ])) by eauto.
    apply object_fields_is_Some in Hall. rewrite Forall_forall in Hall.
    split; [|split].
    + intros key. apply optional_string_is_Some.
      destruct key; refine (Hall (_, _) _); shape_elem.
    + apply line_items_is_Some. refine (Hall (_, _) _). shape_elem.
    + apply meta_is_Some. refine (Hall (_, _) _). shape_elem.
  - intros (data & -> & Hscalars & Hitems & Hmeta).
    assert (Hall : is_Some (object_fields zparse data
      [ (str "documentType", z_optional z_string);
        (str "invoiceNumber", z_optional z_string);
        (str "date", z_optional z_string);
        (str "vendor", z_optional z_string);
        (str "buyer", z_optional z_string);
        (str "total", z_optional z_string);
        (str "currency", z_optional z_string);
        (str "lineItems", z_optional (z_array LineItemSchema));
        (str "meta", z_optional MetaSchema) ])).
    { apply object_fields_is_Some.
      repeat constructor; cbn [fst snd];
        first [ by apply line_items_is_Some
              | by apply meta_is_Some
              | apply optional_string_is_Some ].
      - apply (Hscalars KdocumentType).
      - apply (Hscalars KinvoiceNumber).
      - apply (Hscalars Kdate).
      - apply (Hscalars Kvendor).
      - apply (Hscalars Kbuyer).
      - apply (Hscalars Ktotal).
      - apply (Hscalars Kcurrency). }
    destruct Hall as [c Hc]. exists c. apply parse_object_Ok. eauto.
Qed.

Lemma validation_accepts_exactly_witness :
  (∃ c, parse_object (partial ExtractedDataSchema)
          (VObj {[ str "meta" := VObj {[ str "pagesProcessed" := VNum 3 0 ]} ]})
        = Ok c)
  ↔ answer_accepted
      (VObj {[ str "meta" := VObj {[ str "pagesProcessed" := VNum 3 0 ]} ]}).
Proof.
  apply (validation_accepts_exactly
           (VObj {[ str "meta" := VObj {[ str "pagesProcessed" := VNum 3 0 ]} ]})).
  intros data m n e [= <-] Hmeta Hcount.
  vm_compute in Hmeta. injection Hmeta as <-.
  vm_compute in Hcount. injection Hcount as <- <-.
  vm_compute. reflexivity.
Defined.

(** The converse of [object_fields_key] and [object_fields_other]: an
    object with exactly the checked properties is the output. *)
Lemma object_fields_complete (check : schema → value → option value)
    (data : obj) (sh : list (jsstring * schema)) (o : obj) :
  NoDup sh.*1 →
  (∀ key, key ∉ sh.*1 → o !! key = None) →
  (∀ key field, (key, field) ∈ sh →
     ∃ out, check field (get data key) = Some out
            ∧ o !! key = match out, data !! key with
                         | VUndefined, None => None
                         | _, _ => Some out
                         end) →
  object_fields check data sh = Some o.
Proof.
  revert o. induction sh as [|[k fld] sh IH]; intros o Hnd Hother Hkeys.
  - cbn. f_equal. symmetry. apply map_eq. intros key.
    rewrite lookup_empty. apply Hother, not_elem_of_nil.
  - cbn [fmap list_fmap fst] in Hnd. apply NoDup_cons in Hnd as [Hk Hnd].
    destruct (Hkeys k fld) as (out & Hout & Hlook); [apply list_elem_of_here|].
    cbn [object_fields]. rewrite Hout.
    rewrite (IH (delete k o)); [| done | |].
    + f_equal. destruct out, (data !! k);
        first [ by apply delete_id
              | by rewrite insert_delete_eq; apply insert_id ].
    + intros key Hnin. destruct (decide (key = k)) as [->|Hne].
      * apply lookup_delete_eq.
      * rewrite lookup_delete_ne by done. apply Hother.
        cbn. intros [?|?]%elem_of_cons; done.
    + intros key field Hin.
      assert (k ≠ key).
      { intros ->. apply Hk. apply list_elem_of_fmap. by exists (key, field). }
      rewrite lookup_delete_ne by done. apply Hkeys. by apply list_elem_of_further.
Qed.

(** What passed a schema passes it again, unchanged. *)
Lemma zparse_idempotent sc :
  schema_wf sc = true →
  ∀ v w, zparse sc v = Some w → zparse sc w = Some w.
Proof.
  induction sc as [| |inner IH|element IH|shape IH] using schema_ind';
    intros Hwf v w.
  - destruct v; try done. by intros [= <-].
  - destruct v; try done. by intros [= <-].
  - cbn [schema_wf] in Hwf. intros Hv.
    assert (Hw : w = VUndefined ∨ zparse inner v = Some w).
    { destruct v; cbn in Hv; auto. injection Hv as <-. auto. }
    destruct Hw as [->|Hw]; [done|].
    apply (IH Hwf) in Hw. by destruct w.
  - cbn [schema_wf] in Hwf. destruct v as [| | | | |items|]; try done.
    cbn [zparse]. destruct (mapM (zparse element) items) as [items'|] eqn:Hm;
      [|done].
    intros [= <-]. cbn [zparse].
    assert (Hm' : mapM (zparse element) items' = Some items').
    { apply mapM_Some. apply mapM_Some in Hm.
      induction Hm as [|x y l k Hxy _ IHm]; constructor; [|done].
      by eapply IH. }
    by rewrite Hm'.
  - apply schema_wf_object in Hwf as [Hnd Hwf].
    destruct v as [| | | | | |data]; try done. rewrite zparse_object.
    destruct (object_fields zparse data shape) as [o|] eqn:Hf; [|done].
    intros [= <-]. rewrite zparse_object.
    rewrite (object_fields_complete zparse o shape o); [done|done| |].
    + intros key Hnin. by eapply object_fields_other.
    + intros key field Hin.
      destruct (object_fields_key zparse data shape o key field Hnd Hf Hin)
        as (out & Hout & Hlook).
      rewrite Forall_forall in IH, Hwf.
      pose proof (IH _ Hin (Hwf _ Hin) _ _ Hout) as Hidem. cbn in Hidem.
      unfold get at 1. rewrite Hlook.
      destruct out, (data !! key) eqn:Hd; cbn [default];
        first [ by exists VUndefined; rewrite Hidem
              | eexists; split; [exact Hidem|done]
              ].
Qed.

Lemma ExtractedDataSchema_wf :
  schema_wf ExtractedDataSchema = true
  ∧ schema_wf (partial ExtractedDataSchema) = true
  ∧ schema_wf LineItemSchema = true.
Proof. repeat split; vm_compute; reflexivity. Qed.

(** X6. A record that passed the validation passes it again and comes back
    unchanged, for the validation of a batch and for the final one alike:
    validating twice is validating once. *)
Theorem validation_is_idempotent (v : value) (c : obj) :
  parse_object (partial ExtractedDataSchema) v = Ok c →
  parse_object (partial ExtractedDataSchema) (VObj c) = Ok c
  ∧ parse_object ExtractedDataSchema (VObj c) = Ok c.
Proof.
  intros Hc.
  assert (Hz : zparse (partial ExtractedDataSchema) v = Some (VObj c)).
  { unfold parse_object in Hc.
    destruct (zparse (partial ExtractedDataSchema) v) as [[]|]; congruence. }
  destruct ExtractedDataSchema_wf as (_ & Hwf & _).
  apply (zparse_idempotent _ Hwf) in Hz.
  assert (Hp : parse_object (partial ExtractedDataSchema) (VObj c) = Ok c)
    by (unfold parse_object; by rewrite Hz).
  split; [done|].
  by destruct (partial_is_redundant_shape (VObj c)) as [_ <-].
Qed.

Lemma validation_is_idempotent_witness :
  parse_object (partial ExtractedDataSchema)
    (VObj {[ str "vendor" := VStr (str "Acme") ]})
  = Ok {[ str "vendor" := VStr (str "Acme") ]}
  ∧ parse_object ExtractedDataSchema
      (VObj {[ str "vendor" := VStr (str "Acme") ]})
    = Ok {[ str "vendor" := VStr (str "Acme") ]}.
Proof.
  apply (validation_is_idempotent (VObj example_extra)
           {[ str "vendor" := VStr (str "Acme") ]}).
  vm_compute. reflexivity.
Defined.

(** ** The merged record *)

(** X7. A merge step reads the seven scalar properties and [lineItems] of
    the candidate and nothing else: candidates that agree on these give the
    same merged record.  In particular what the model reports under [meta]
    never enters the result. *)
Theorem merge_reads_eight_properties
    (merged : Merged) (c c' : obj) (batch : list base64) :
  (∀ key : scalar_key, get c (key_name key) = get c' (key_name key)) →
  get c (str "lineItems") = get c' (str "lineItems") →
  merge_batch merged c batch = merge_batch merged c' batch.
Proof.
  intros Hscalars Hitems. apply Merged_ext.
  - intros key. by rewrite !merge_batch_get, Hscalars.
  - rewrite !merge_batch_lineItems. unfold candidate_items. by rewrite Hitems.
  - pose proof (merge_batch_pages merged c batch) as H1.
    pose proof (merge_batch_pages merged c' batch) as H2.
    destruct (meta (merge_batch merged c batch)),
             (meta (merge_batch merged c' batch)).
    cbn in *. congruence.
Qed.

Lemma merge_reads_eight_properties_witness :
  merge_batch initial_merged
    (<[str "meta" := VObj {[ str "pagesProcessed" := VNum 99 0 ]}]>
       {[ str "vendor" := VStr (str "Acme") ]})
    [str "p1"]
  = merge_batch initial_merged {[ str "vendor" := VStr (str "Acme") ]} [str "p1"].
Proof.
  apply (merge_reads_eight_properties initial_merged
           (<[str "meta" := VObj {[ str "pagesProcessed" := VNum 99 0 ]}]>
              {[ str "vendor" := VStr (str "Acme") ]})
           {[ str "vendor" := VStr (str "Acme") ]} [str "p1"]).
  - intros key. destruct key; vm_compute; reflexivity.
  - vm_compute. reflexivity.
Defined.

Lemma validated_fixpoint c :
  validated c → zparse (partial ExtractedDataSchema) (VObj c) = Some (VObj c).
Proof.
  intros [parsed Hc]. unfold parse_object in Hc.
  destruct (zparse (partial ExtractedDataSchema) parsed) as [[]|] eqn:Hz;
    try congruence.
  injection Hc as ->.
  destruct ExtractedDataSchema_wf as (_ & Hwf & _).
  by apply (zparse_idempotent _ Hwf) in Hz.
Qed.

Lemma validated_scalar c key :
  validated c → string_or_absent (get c (key_name key)).
Proof.
  intros Hz%validated_fixpoint.
  rewrite partial_ExtractedDataSchema, zparse_object in Hz.
  destruct (object_fields zparse c _) as [o|] eqn:Hf; [|done].
  eapply (object_fields_key _ _ _ _ (key_name key)
            (z_optional (z_optional z_string))) in Hf
    as (out & Hout & _); [|shape_nodup|destruct key; shape_elem].
  rewrite optional_optional in Hout. apply optional_string_is_Some. eauto.
Qed.

Lemma validated_items c :
  validated c →
  mapM (zparse LineItemSchema) (candidate_items c) = Some (candidate_items c).
Proof.
  intros Hz%validated_fixpoint.
  rewrite partial_ExtractedDataSchema, zparse_object in Hz.
  destruct (object_fields zparse c _) as [o|] eqn:Hf; [|done].
  injection Hz as ->.
  eapply (object_fields_key _ _ _ _ (str "lineItems")
            (z_optional (z_optional (z_array LineItemSchema)))) in Hf
    as (out & Hout & Hlook); [|shape_nodup|shape_elem].
  unfold candidate_items. unfold get in *.
  destruct (c !! str "lineItems") as [[| | | | |items|]|];
    cbn [default from_option id]; try done.
  cbn [default from_option id zparse] in Hout.
  destruct (mapM (zparse LineItemSchema) items) as [items'|]; [|done].
  injection Hout as <-. by injection Hlook as <-.
Qed.

Lemma line_item_fixpoint_record item :
  zparse LineItemSchema item = Some item → line_item_record item.
Proof.
  unfold LineItemSchema. destruct item as [| | | | | |o]; try done.
  rewrite zparse_object.
  destruct (object_fields zparse o _) as [o'|] eqn:Hf; [|done].
  intros [= ->]. exists o. split; [done|]. intros key v Hkey.
  destruct (decide (key ∈ line_item_keys)) as [Hin|Hnin].
  - split; [done|]. unfold line_item_keys in Hin.
    assert (Hfield : ((key, z_optional z_string) : jsstring * schema) ∈
              [ (str "description", z_optional z_string);
                (str "quantity", z_optional z_string);
                (str "unitPrice", z_optional z_string);
                (str "amount", z_optional z_string) ]).
    { repeat (apply elem_of_cons in Hin as [->|Hin]; [shape_elem|]).
      by apply elem_of_nil in Hin. }
    eapply object_fields_key in Hf as (out & Hout & _);
      [|shape_nodup|exact Hfield].
    unfold get in Hout. rewrite Hkey in Hout. cbn [default] in Hout.
    apply optional_string_is_Some. eauto.
  - by rewrite (object_fields_other _ _ _ _ key Hf Hnin) in Hkey.
Qed.

Lemma mapM_fixpoint_app {A} (f : A → option A) l k :
  mapM f l = Some l → mapM f k = Some k → mapM f (l ++ k) = Some (l ++ k).
Proof.
  rewrite !mapM_Some. apply Forall2_app.
Qed.

(** The types the loop keeps: proved for any merge of validated candidates. *)
Lemma merge_all_typed merged cbs :
  (∀ key, null_or_string (merged_get merged key)) →
  mapM (zparse LineItemSchema) (lineItems merged) = Some (lineItems merged) →
  Forall (λ cb, validated cb.1) cbs →
  (∀ key, null_or_string (merged_get (merge_all merged cbs) key))
  ∧ mapM (zparse LineItemSchema) (lineItems (merge_all merged cbs))
    = Some (lineItems (merge_all merged cbs)).
Proof.
  revert merged. induction cbs as [|[c b] cbs IH]; intros merged Hs Hi Hv.
  - done.
  - apply Forall_cons in Hv as [Hc Hv]. cbn in Hc.
    cbn. fold (merge_all (merge_batch merged c b) cbs). apply IH; [| |done].
    + intros key. rewrite merge_batch_get. unfold first_wins.
      destruct (loose_null (merged_get merged key)
                && negb (loose_null (get c (key_name key)))) eqn:Hcond; [|done].
      destruct (validated_scalar c key Hc) as [Hu|[s Hstr]].
      * rewrite Hu in Hcond. cbn in Hcond. by rewrite andb_false_r in Hcond.
      * right. eauto.
    + rewrite merge_batch_lineItems. apply mapM_fixpoint_app; [done|].
      by apply validated_items.
Qed.

Lemma loop_typed call count batches merged :
  process_batches call count 0 initial_merged batches = Ok merged →
  (∀ key, null_or_string (merged_get merged key))
  ∧ mapM (zparse LineItemSchema) (lineItems merged) = Some (lineItems merged).
Proof.
  rewrite process_batches_candidates.
  destruct (candidates call count 0 batches) as [cs|] eqn:Hcs; [|done].
  rewrite bind_Ok. intros [= <-]. apply merge_all_typed.
  - intros key. left. by destruct key.
  - done.
  - apply Forall_forall. intros [c b] Hin. cbn.
    apply candidates_validated in Hcs. rewrite Forall_forall in Hcs.
    apply Hcs. apply elem_of_zip_l in Hin. done.
Qed.

(** X8. Whenever the loop has processed some batches, the merged record is
    well typed: each scalar is [null] or a string, and each line item is an
    object with no property but the four declared ones, each of them a
    string or [undefined]. *)
Theorem merged_is_well_typed
    (call : nat → nat → list base64 → result jsstring)
    (count : nat) (batches : list (list base64)) (merged : Merged) :
  process_batches call count 0 initial_merged batches = Ok merged →
  (∀ key, null_or_string (merged_get merged key))
  ∧ Forall line_item_record (lineItems merged).
Proof.
  intros [Hs Hi]%loop_typed. split; [done|].
  apply mapM_Some in Hi. apply Forall_forall. intros item Hin.
  apply line_item_fixpoint_record.
  apply list_elem_of_lookup in Hin as [i Hi'].
  by eapply Forall2_lookup_lr in Hi.
Qed.

Lemma merged_is_well_typed_witness :
  (∀ key, null_or_string
            (merged_get
               (merge_all initial_merged (zip example_candidates example_batches))
               key))
  ∧ Forall line_item_record
      (lineItems (merge_all initial_merged (zip example_candidates example_batches))).
Proof.
  apply (merged_is_well_typed example_model 3 example_batches).
  vm_compute. reflexivity.
Defined.

(** ** When the request succeeds *)

Lemma merged_value_props merged :
  ∃ props : obj,
    merged_value merged = VObj props
    ∧ (∀ key, props !! key_name key = Some (merged_get merged key))
    ∧ props !! str "lineItems" = Some (VArr (lineItems merged))
    ∧ props !! str "meta"
      = Some (VObj {[ str "pagesProcessed" := VNum (pagesProcessed (meta merged)) 0 ]})
    ∧ ∀ key, key ∉ shape_keys ExtractedDataSchema → props !! key = None.
Proof.
  eexists. split; [reflexivity|]. split; [|split; [|split]].
  - intros key. destruct key; vm_compute; reflexivity.
  - vm_compute. reflexivity.
  - vm_compute. reflexivity.
  - intros key Hnin. apply not_elem_of_list_to_map_1.
    intros Hin. apply Hnin. exact Hin.
Qed.

(** The final validation returns a well-typed merged record as it is. *)
Lemma final_validation_keeps merged props :
  merged_value merged = VObj props →
  (∀ key, ∃ s, merged_get merged key = VStr s) →
  mapM (zparse LineItemSchema) (lineItems merged) = Some (lineItems merged) →
  parse_object ExtractedDataSchema (merged_value merged) = Ok props.
Proof.
  intros Hprops Hs Hi.
  destruct (merged_value_props merged)
    as (props' & Hprops' & Hscalars & Hitems & Hmeta & Hother).
  rewrite Hprops in Hprops'. injection Hprops' as <-.
  rewrite Hprops, ExtractedDataSchema_shape. apply parse_object_Ok.
  exists props. split; [done|].
  apply object_fields_complete; [shape_nodup|exact Hother|].
  intros key field Hin.
  repeat (apply elem_of_cons in Hin as [[= -> ->]|Hin]).
  10: by apply elem_of_nil in Hin.
  1: destruct (Hs KdocumentType) as [s Hk];
     pose proof (Hscalars KdocumentType) as Hl.
  2: destruct (Hs KinvoiceNumber) as [s Hk];
     pose proof (Hscalars KinvoiceNumber) as Hl.
  3: destruct (Hs Kdate) as [s Hk]; pose proof (Hscalars Kdate) as Hl.
  4: destruct (Hs Kvendor) as [s Hk]; pose proof (Hscalars Kvendor) as Hl.
  5: destruct (Hs Kbuyer) as [s Hk]; pose proof (Hscalars Kbuyer) as Hl.
  6: destruct (Hs Ktotal) as [s Hk]; pose proof (Hscalars Ktotal) as Hl.
  7: destruct (Hs Kcurrency) as [s Hk]; pose proof (Hscalars Kcurrency) as Hl.
  1-7: cbn [key_name] in Hl; rewrite Hk in Hl; unfold get; rewrite Hl;
       by exists (VStr s).
  - unfold get. rewrite Hitems. cbn [default from_option id zparse].
    rewrite Hi. by eexists.
  - unfold get. rewrite Hmeta. eexists. split; [vm_compute; reflexivity|done].
Qed.

(** X9. The request succeeds exactly when a page was rendered, the loop over
    the batches ends, and no scalar of the merged record is still [null];
    the response then counts the rendered pages and its [data] is the
    merged record as it stands: the final validation drops and changes
    nothing. *)
Theorem request_succeeds_iff
    (pdfToPicFromPath : jsstring → nat → result (option base64))
    (call : nat → nat → list base64 → result jsstring) (pdfPath : jsstring)
    (n : nat) (data : value) :
  let pages := pdfToBase64Pages pdfToPicFromPath pdfPath in
  let batches := make_batches pages in
  extract pdfToPicFromPath call (Some pdfPath) = Success n data
  ↔ pages ≠ [] ∧ n = length pages
    ∧ ∃ merged,
        process_batches call (length batches) 0 initial_merged batches = Ok merged
        ∧ (∀ key, merged_get merged key ≠ VNull)
        ∧ data = merged_value merged.
Proof.
  intros pages batches. unfold extract, extract_body.
  fold pages. fold batches.
  destruct pages as [|p pages'] eqn:Hp.
  { cbn. split; [done|]. by intros [? _]. }
  cbn [length Nat.eqb].
  destruct (process_batches call (length batches) 0 initial_merged batches)
    as [merged|e] eqn:Hloop.
  2: { rewrite bind_Throw. split; [done|]. by intros (_ & _ & ? & [=] & _). }
  rewrite bind_Ok. destruct (loop_typed _ _ _ _ Hloop) as [Hs Hi].
  destruct (merged_value_props merged) as (props & Hprops & _).
  split.
  - destruct (parse_object ExtractedDataSchema (merged_value merged))
      as [final|e] eqn:Hfinal; [|done].
    rewrite bind_Ok. intros [= <- <-].
    assert (Hnn : ∀ key, merged_get merged key ≠ VNull).
    { intros key Hnull.
      by rewrite (final_rejects_null _ _ Hnull) in Hfinal. }
    split; [done|]. split; [done|]. exists merged.
    split; [done|]. split; [done|].
    rewrite (final_validation_keeps merged props) in Hfinal; [|done| |done].
    + injection Hfinal as <-. done.
    + intros key. destruct (Hs key) as [Hnull|?]; [|done]. by destruct (Hnn key).
  - intros (_ & -> & merged' & [= <-] & Hnn & ->).
    rewrite (final_validation_keeps merged props); [|done| |done].
    + rewrite bind_Ok. by rewrite Hprops.
    + intros key. destruct (Hs key) as [Hnull|?]; [|done]. by destruct (Hnn key).
Qed.

Lemma request_succeeds_iff_witness :
  extract (example_converter 7) example_full_model (Some (str "invoice.pdf"))
  = Success 7 example_data
  ∧ example_data = merged_value example_merged.
Proof.
  split.
  - apply (request_succeeds_iff (example_converter 7) example_full_model
             (str "invoice.pdf") 7 example_data).
    split; [vm_compute; discriminate|]. split; [vm_compute; reflexivity|].
    exists example_merged. split; [vm_compute; reflexivity|].
    split; [intros key; destruct key; vm_compute; discriminate|].
    vm_compute. reflexivity.
  - vm_compute. reflexivity.
Defined.

(** ** Failures *)

Lemma candidates_app call count idx l1 l2 :
  candidates call count idx (l1 ++ l2)
  = cs1 ← candidates call count idx l1;
    cs2 ← candidates call count (idx + length l1) l2;
    Ok (cs1 ++ cs2).
Proof.
  revert idx. induction l1 as [|b l1 IH]; intros idx.
  - cbn [app candidates length]. rewrite bind_Ok, Nat.add_0_r.
    by destruct (candidates call count idx l2).
  - cbn [app candidates length].
    destruct (fetch_candidate call count idx b) as [c|]; [|done].
    rewrite !bind_Ok, IH.
    destruct (candidates call count (S idx) l1) as [cs1|]; [|done].
    rewrite !bind_Ok. replace (idx + S (length l1))%nat with (S idx + length l1)%nat by lia.
    by destruct (candidates call count (S idx + length l1) l2).
Qed.

Lemma make_batches_nil : make_batches [] = [].
Proof. done. Qed.

(** X10. The first batch that fails, be it in the call of the model, in
    the parsing of its answer or in its validation, ends the request with
    the 500 response of its error; the batches after it play no part. *)
Theorem first_failure_decides
    (pdfToPicFromPath : jsstring → nat → result (option base64))
    (call : nat → nat → list base64 → result jsstring) (pdfPath : jsstring)
    (i : nat) (batch : list base64) (cs : list obj) (e : error) :
  let batches := make_batches (pdfToBase64Pages pdfToPicFromPath pdfPath) in
  batches !! i = Some batch →
  candidates call (length batches) 0 (take i batches) = Ok cs →
  fetch_candidate call (length batches) i batch = Throw e →
  extract pdfToPicFromPath call (Some pdfPath) = Failure e.
Proof.
  intros batches Hi Hcs He. unfold extract, extract_body.
  destruct (pdfToBase64Pages pdfToPicFromPath pdfPath) as [|p pages] eqn:Hp.
  { subst batches. by rewrite make_batches_nil in Hi. }
  cbn [length Nat.eqb]. fold batches.
  rewrite process_batches_candidates.
  rewrite <- (take_drop_middle batches i batch Hi) at 2.
  rewrite candidates_app, Hcs, bind_Ok. cbn [candidates].
  rewrite length_take_le by (apply lookup_lt_Some in Hi; lia).
  cbn [Nat.add]. by rewrite He.
Qed.

Lemma first_failure_decides_witness :
  extract (example_converter 7)
    (λ n count images, if (n =? 2)%nat then Ok (lit "{'total': 100}")
                       else example_full_model n count images)
    (Some (str "invoice.pdf"))
  = Failure ZodError.
Proof.
  apply (first_failure_decides (example_converter 7) _ (str "invoice.pdf")
           1 [str "iVBORw0KGgo="]
           [list_to_map
              [ (str "documentType", VStr (str "invoice"));
                (str "invoiceNumber", VStr (str "INV-1"));
                (str "date", VStr (str "2024-01-31"));
                (str "vendor", VStr (str "Acme"));
                (str "buyer", VStr (str "Bob"));
                (str "total", VStr (str "100"));
                (str "currency", VStr (str "USD"));
                (str "lineItems", VArr [example_line_item]);
                (str "meta", VObj {[ str "pagesProcessed" := VNum 99 0 ]}) ]]
           ZodError).
  - vm_compute. reflexivity.
  - vm_compute. reflexivity.
  - vm_compute. reflexivity.
Defined.

(** ** The calls to the model *)




(** ** Answers that are not a JSON object *)

Lemma parse_model_output_fallback content :
  JSON.parse content = None →
  parse_model_output content
  = let start := indexOf 123 content in
    let end_ := lastIndexOf 125 content in
    if negb (start =? -1)%Z && negb (end_ =? -1)%Z && (end_ >? start)%Z
    then JSON_parse (slice content start (end_ + 1))
    else Throw (Error (str "Model did not return valid JSON.")).
Proof.
  intros Hnone. unfold parse_model_output, try_catch. unfold JSON_parse at 1.
  by rewrite Hnone.
Qed.

Lemma embedded_brace_pair (pre body post : jsstring) :
  123 ∉ pre → 125 ∉ post →
  brace_pair (pre ++ 123 :: body ++ 125 :: post)
    (length pre) (length pre + S (length body))
  ∧ substring (pre ++ 123 :: body ++ 125 :: post)
      (length pre) (length pre + S (length body))
    = 123 :: body ++ [125].
Proof.
  intros Hpre Hpost.
  assert (Hre : pre ++ 123 :: body ++ 125 :: post
                = (pre ++ 123 :: body) ++ 125 :: post)
    by (by rewrite <- app_assoc).
  assert (Hlen : length (pre ++ 123 :: body) = (length pre + S (length body))%nat)
    by (rewrite length_app; done).
  split; [split; [|split]|].
  - split.
    + by rewrite lookup_app_r, Nat.sub_diag by lia.
    + intros j Hj. rewrite lookup_app_l by done. intros Hin.
      by apply at_elem_of in Hin.
  - rewrite Hre, <- Hlen. split.
    + by rewrite lookup_app_r, Nat.sub_diag by lia.
    + intros j Hj. rewrite lookup_app_r by lia.
      destruct (j - length (pre ++ 123%N :: body))%nat as [|k] eqn:Hk; [lia|].
      cbn. intros Hin. by apply at_elem_of in Hin.
  - lia.
  - unfold substring. rewrite drop_app_length.
    replace (length pre + S (length body) - length pre + 1)%nat
      with (length ((123%N :: body) ++ [125%N]))
      by (rewrite length_app; cbn; lia).
    change (123 :: body ++ 125 :: post) with ((123 :: body) ++ [125] ++ post).
    rewrite app_assoc. by rewrite take_app_length.
Qed.

(** X12. Text around one JSON object is tolerated: when the answer as a
    whole is not JSON, no opening brace precedes the object and no closing
    brace follows it, the object between the first opening and the last
    closing brace is what the handler uses. *)
Theorem braces_recover_embedded_object (pre body post : jsstring) (v : value) :
  123 ∉ pre → 125 ∉ post →
  JSON.parse (pre ++ 123 :: body ++ 125 :: post) = None →
  JSON.parse (123 :: body ++ [125]) = Some v →
  parse_model_output (pre ++ 123 :: body ++ 125 :: post) = Ok v.
Proof.
  intros Hpre Hpost Hnone Hbody.
  destruct (embedded_brace_pair pre body post Hpre Hpost) as [Hpair Hsub].
  rewrite (parse_model_output_fallback _ Hnone).
  destruct (fallback_cases (pre ++ 123 :: body ++ 125 :: post))
    as [(s & e & Hpair' & ->)|[Hno _]].
  - destruct (brace_pair_unique _ _ _ _ _ Hpair Hpair') as [<- <-].
    rewrite Hsub. unfold JSON_parse. by rewrite Hbody.
  - by destruct (Hno _ _ Hpair).
Qed.

Lemma braces_recover_embedded_object_witness :
  parse_model_output
    (lit "Sure! Here it is: " ++ 123 :: lit "'total':'100'" ++ 125 :: lit " Hope it helps.")
  = Ok (VObj {[ str "total" := VStr (str "100") ]}).
Proof.
  apply (braces_recover_embedded_object (lit "Sure! Here it is: ")
           (lit "'total':'100'") (lit " Hope it helps.")).
  - vm_compute. intros H. repeat (apply elem_of_cons in H as [H|H]; [discriminate|]).
    by apply elem_of_nil in H.
  - vm_compute. intros H. repeat (apply elem_of_cons in H as [H|H]; [discriminate|]).
    by apply elem_of_nil in H.
  - vm_compute. reflexivity.
  - vm_compute. reflexivity.
Defined.

(** X13. An answer that is JSON but not an object (an array of records, a
    string, a number, [null]) is not unwrapped or repaired: the validation
    of its batch throws and the loop ends with that [ZodError]. *)
Theorem non_object_answer_fails
    (call : nat → nat → list base64 → result jsstring)
    (count idx : nat) (merged : Merged) (batch : list base64)
    (rest : list (list base64)) (content : jsstring) (v : value) :
  call (idx + 1)%nat count batch = Ok content →
  JSON.parse content = Some v →
  (∀ o, v ≠ VObj o) →
  process_batches call count idx merged (batch :: rest) = Throw ZodError.
Proof.
  intros Hcall Hparse Hnot. cbn [process_batches]. rewrite Hcall, bind_Ok.
  unfold parse_model_output, try_catch, JSON_parse. rewrite Hparse, bind_Ok.
  rewrite partial_ExtractedDataSchema. unfold parse_object.
  destruct v; try done. by destruct (Hnot props).
Qed.

Lemma non_object_answer_fails_witness :
  process_batches (λ _ _ _, Ok (lit "[{'vendor':'Acme'}]")) 1 0 initial_merged
    [[str "p1"]]
  = Throw ZodError.
Proof.
  apply (non_object_answer_fails (λ _ _ _, Ok (lit "[{'vendor':'Acme'}]")) 1 0
           initial_merged [str "p1"] [] (lit "[{'vendor':'Acme'}]")
           (VArr [VObj {[ str "vendor" := VStr (str "Acme") ]}])).
  - reflexivity.
  - vm_compute. reflexivity.
  - intros o. discriminate.
Defined.

(** ** The text of the answer *)

Lemma trimStart_spec s :
  ∃ pre, s = pre ++ trimStart s
         ∧ Forall (λ c, is_js_space c = true) pre
         ∧ ∀ c, head (trimStart s) = Some c → is_js_space c = false.
Proof.
  induction s as [|c s (pre & Hs & Hpre & Hhead)]; cbn [trimStart].
  - exists []. split; [done|]. split; [constructor|done].
  - destruct (is_js_space c) eqn:Hc.
    + exists (c :: pre). split; [by rewrite Hs at 1|]. split; [by constructor|done].
    + exists []. split; [done|]. split; [constructor|].
      cbn. by intros c' [= <-].
Qed.

Lemma trimEnd_spec s :
  ∃ post, s = trimEnd s ++ post
          ∧ Forall (λ c, is_js_space c = true) post
          ∧ ∀ c, last (trimEnd s) = Some c → is_js_space c = false.
Proof.
  unfold trimEnd.
  destruct (trimStart_spec (reverse s)) as (pre & Hs & Hpre & Hhead).
  exists (reverse pre). split; [|split].
  - rewrite <- reverse_app, <- Hs. by rewrite reverse_involutive.
  - by apply Forall_reverse.
  - intros c. rewrite last_reverse. apply Hhead.
Qed.

Lemma trim_spec s :
  ∃ pre post, s = pre ++ trim s ++ post
              ∧ Forall (λ c, is_js_space c = true) pre
              ∧ Forall (λ c, is_js_space c = true) post
              ∧ (∀ c, head (trim s) = Some c → is_js_space c = false)
              ∧ (∀ c, last (trim s) = Some c → is_js_space c = false).
Proof.
  unfold trim.
  destruct (trimStart_spec s) as (pre & Hs & Hpre & Hhead).
  destruct (trimEnd_spec (trimStart s)) as (post & Ht & Hpost & Hlast).
  exists pre, post. split; [by rewrite <- Ht|]. split; [done|].
  split; [done|]. split; [|done].
  intros c Hc. apply Hhead. rewrite Ht.
  destruct (trimEnd (trimStart s)); [done|]. exact Hc.
Qed.

Section OllamaFacts.

Variable join_lines : list value → option jsstring.

Lemma response_content_string data s :
  opt_prop (opt_prop data (str "message")) (str "content") = VStr s →
  response_content join_lines data = Some (trim s).
Proof.
  intros Hs. unfold response_content. rewrite Hs. cbn [loose_null].
  by destruct (trim s).
Qed.

(** X14. When the response carries a string under [message.content], the
    handler gets that string without the white space and line breaks around
    it, and nothing else of the response matters: the text neither starts
    nor ends with white space, and only white space was cut. *)
Theorem answer_text_is_trimmed (data : value) (s : jsstring) :
  opt_prop (opt_prop data (str "message")) (str "content") = VStr s →
  ∃ text pre post,
    response_content join_lines data = Some text
    ∧ s = pre ++ text ++ post
    ∧ Forall (λ c, is_js_space c = true) pre
    ∧ Forall (λ c, is_js_space c = true) post
    ∧ (∀ c, head text = Some c → is_js_space c = false)
    ∧ (∀ c, last text = Some c → is_js_space c = false).
Proof.
  intros Hs. destruct (trim_spec s) as (pre & post & H).
  exists (trim s), pre, post. split; [by apply response_content_string|done].
Qed.

Lemma response_content_none data :
  loose_null (opt_prop (opt_prop data (str "message")) (str "content")) = true →
  isNotArray (opt_prop data (str "messages")) →
  response_content join_lines data = Some [].
Proof.
  intros Hnull Hna. unfold response_content. rewrite Hnull.
  destruct (opt_prop data (str "messages")); try done.
Qed.

Variable post : nat → nat → list base64 → result value.
Variable type_error : value → error.

(** X15. An answer without text, be it a response with no content at all or
    a content of white space only, ends the loop with the error "Model did
    not return valid JSON.". *)
Theorem empty_answer_is_invalid_json
    (count idx : nat) (merged : Merged) (batch : list base64)
    (rest : list (list base64)) (data : value) :
  post (idx + 1)%nat count batch = Ok data →
  response_content join_lines data = Some [] →
  process_batches (callOllamaVision join_lines post type_error)
    count idx merged (batch :: rest)
  = Throw (Error (str "Model did not return valid JSON.")).
Proof.
  intros Hpost Hempty. cbn [process_batches]. unfold callOllamaVision.
  by rewrite Hpost, bind_Ok, Hempty, bind_Ok.
Qed.

(** X17. A content that is there but is not a string (a number, an
    object, an array) is not converted: the call throws a [TypeError], and
    the loop ends with it instead of an error about JSON. *)
Theorem non_string_content_throws
    (count idx : nat) (merged : Merged) (batch : list base64)
    (rest : list (list base64)) (data : value) :
  post (idx + 1)%nat count batch = Ok data →
  loose_null (opt_prop (opt_prop data (str "message")) (str "content")) = false →
  (∀ s, opt_prop (opt_prop data (str "message")) (str "content") ≠ VStr s) →
  response_content join_lines data = None
  ∧ process_batches (callOllamaVision join_lines post type_error)
      count idx merged (batch :: rest)
    = Throw (type_error data).
Proof.
  intros Hpost Hnn Hns.
  assert (Hnone : response_content join_lines data = None).
  { unfold response_content. rewrite Hnn.
    destruct (opt_prop (opt_prop data (str "message")) (str "content"));
      try done. by destruct (Hns s). }
  split; [done|]. cbn [process_batches]. unfold callOllamaVision.
  by rewrite Hpost, bind_Ok, Hnone.
Qed.

End OllamaFacts.

Lemma answer_text_is_trimmed_witness :
  ∃ text pre post,
    response_content (λ _, None) example_response = Some text
    ∧ lit " {'total':'100'}
" = pre ++ text ++ post
    ∧ Forall (λ c, is_js_space c = true) pre
    ∧ Forall (λ c, is_js_space c = true) post
    ∧ (∀ c, head text = Some c → is_js_space c = false)
    ∧ (∀ c, last text = Some c → is_js_space c = false).
Proof.
  apply (answer_text_is_trimmed (λ _, None) example_response).
  vm_compute. reflexivity.
Defined.

Lemma empty_answer_is_invalid_json_witness :
  process_batches
    (callOllamaVision (λ _, None) (λ _ _ _, Ok example_blank_response)
       (λ _, Error (str "content.trim is not a function")))
    1 0 initial_merged [[str "p1"]]
  = Throw (Error (str "Model did not return valid JSON.")).
Proof.
  apply (empty_answer_is_invalid_json (λ _, None)
           (λ _ _ _, Ok example_blank_response)
           (λ _, Error (str "content.trim is not a function"))
           1 0 initial_merged [str "p1"] [] example_blank_response).
  - reflexivity.
  - vm_compute. reflexivity.
Defined.

(** ** The upload filter *)

Lemma startsWith_spec prefix s :
  startsWith prefix s = true ↔ ∃ rest, s = prefix ++ rest.
Proof.
  revert s. induction prefix as [|a prefix IH]; intros s; cbn.
  - split; eauto.
  - destruct s as [|b s].
    + split; [done|]. by intros [? [=]].
    + rewrite andb_true_iff, N.eqb_eq, IH. split.
      * intros [-> [rest ->]]. eauto.
      * intros [rest [= -> ->]]. eauto.
Qed.

Lemma includes_spec needle s :
  includes needle s = true ↔ ∃ before after, s = before ++ needle ++ after.
Proof.
  induction s as [|c s IH].
  - cbn [includes]. rewrite orb_false_r, startsWith_spec. split.
    + intros [rest ->]. by exists [], rest.
    + intros (before & after & Hs). symmetry in Hs.
      apply app_eq_nil in Hs as [-> Hs]. apply app_eq_nil in Hs as [-> ->].
      by exists [].
  - cbn [includes]. rewrite orb_true_iff, startsWith_spec, IH. split.
    + intros [[rest ->]|(before & after & ->)].
      * by exists [], rest.
      * by exists (c :: before), after.
    + intros ([|b before] & after & Hs).
      * left. by exists after.
      * right. injection Hs as -> ->. eauto.
Qed.

Lemma endsWith_spec suffix s :
  endsWith suffix s = true ↔ ∃ stem, s = stem ++ suffix.
Proof.
  unfold endsWith. rewrite startsWith_spec. split.
  - intros [rest Hs]. exists (reverse rest).
    apply (inj reverse). by rewrite reverse_app, reverse_involutive.
  - intros [stem ->]. exists (reverse stem). by rewrite reverse_app.
Qed.

(** X16. The upload filter lets a file through exactly when [pdf] occurs
    somewhere in its declared content type (in this case of letters), or
    its name in lower case ends in [.pdf]; a missing content type counts as
    empty.  Any other file is refused with "Only PDF files are allowed.". *)
Theorem upload_filter_accepts (toLowerCase : jsstring → jsstring) (file : upload) :
  (fileFilter toLowerCase file = Ok true
   ↔ (∃ before after, mimetype file = Some (before ++ str "pdf" ++ after))
     ∨ (∃ stem, toLowerCase (originalname file) = stem ++ str ".pdf"))
  ∧ (fileFilter toLowerCase file = Ok true
     ∨ fileFilter toLowerCase file
       = Throw (Error (str "Only PDF files are allowed."))).
Proof.
  assert (Hmime : includes (str "pdf") (default [] (mimetype file)) = true
                  ↔ ∃ before after,
                      mimetype file = Some (before ++ str "pdf" ++ after)).
  { rewrite includes_spec.
    destruct (mimetype file) as [m|]; cbn [default from_option id].
    - split.
      + intros (before & after & ->). by exists before, after.
      + intros (before & after & [= ->]). by exists before, after.
    - split; intros (before & after & H); [|done]. exfalso.
      symmetry in H. apply app_eq_nil in H as [_ H].
      by apply app_eq_nil in H as [[=] _]. }
  pose proof (endsWith_spec (str ".pdf") (toLowerCase (originalname file)))
    as Hname.
  unfold fileFilter.
  destruct (includes (str "pdf") (default [] (mimetype file)));
    destruct (endsWith (str ".pdf") (toLowerCase (originalname file)));
    cbn [orb]; (split; [|by auto]).
  - split; [intros _|done]. left. by apply Hmime.
  - split; [intros _|done]. left. by apply Hmime.
  - split; [intros _|done]. right. by apply Hname.
  - split; [done|]. intros [H|H]; [by apply Hmime in H|by apply Hname in H].
Qed.

Lemma non_string_content_throws_witness :
  response_content (λ _, None)
    (VObj {[ str "message" := VObj {[ str "content" := VObj {[ str "total" := VStr (str "100") ]} ]} ]})
  = None
  ∧ process_batches
      (callOllamaVision (λ _, None)
         (λ _ _ _, Ok (VObj {[ str "message" := VObj {[ str "content" := VObj {[ str "total" := VStr (str "100") ]} ]} ]}))
         (λ _, Error (str "content.trim is not a function")))
      1 0 initial_merged [[str "p1"]]
    = Throw (Error (str "content.trim is not a function")).
Proof.
  apply (non_string_content_throws (λ _, None)
           (λ _ _ _, Ok (VObj {[ str "message" := VObj {[ str "content" := VObj {[ str "total" := VStr (str "100") ]} ]} ]}))
           (λ _, Error (str "content.trim is not a function"))
           1 0 initial_merged [str "p1"] []).
  - reflexivity.
  - vm_compute. reflexivity.
  - intros s. vm_compute. discriminate.
Defined.
